(** * Sondagem-IA: the client-side PDF export pipeline

    A shallow embedding of the code that turns a rendered report into a
    paginated PDF ([handleDownloadReportPDF] in [src/App.tsx] and
    [handleDownloadPDF] in [src/components/ConsolidatedStudentView.tsx]) and of
    the markdown normalizer of [src/App.tsx].

    Conventions.
    - A JavaScript [number] is modelled by an exact rational ([Q]); [Math.floor]
      is [Qfloor].  Rounding of IEEE doubles is not modelled.
    - A JavaScript string is the list of its UTF-16 code units ([list N]).
    - The DOM, the rasteriser and the PDF writer are external: the pipeline is
      run against an explicit world state and an environment that says what the
      external calls answer and which stage raises. *)

From Stdlib Require Import String Ascii NArith ZArith QArith Qround List Sorted Bool Lia Lqa.
From Equations Require Import Equations.
From Stdlib Require Import Permutation DecimalNat.
Import ListNotations.

Open Scope list_scope.
Open Scope Q_scope.

(** ** JavaScript strings *)

Module Js.

(** UTF-16 code units. *)
Definition jsstring : Type := list N.

Definition ofAscii (s : string) : jsstring :=
  map N_of_ascii (list_ascii_of_string s).

End Js.

(** ** Page-break insertion (the "Tetris" pass of [src/App.tsx]) *)

Module Tetris.

(** What the loop reads of one [.pdf-item] element: [el.offsetHeight] and the
    computed margins, after [parseFloat(..) || 0]. *)
Record Item : Type := mkItem {
  offsetHeight : Q;
  marginTop : Q;
  marginBottom : Q
}.

Definition A4_HEIGHT_PX : Q := 1123.
Definition PADDING_BOTTOM : Q := 60.
Definition PAGE_CONTENT_HEIGHT : Q := A4_HEIGHT_PX - PADDING_BOTTOM.

Definition totalItemHeight (el : Item) : Q :=
  offsetHeight el + marginTop el + marginBottom el.

(** [Math.floor(y / PAGE_CONTENT_HEIGHT)] *)
Definition pageIndex (y : Q) : Z := Qfloor (y / PAGE_CONTENT_HEIGHT).

Definition remainingSpaceOnPage (currentY : Q) : Q :=
  (inject_Z (pageIndex currentY + 1) * PAGE_CONTENT_HEIGHT) - currentY.

Definition pushDownAmount (currentY : Q) : Q :=
  remainingSpaceOnPage currentY + 40.

(** The test of the [if]: the element starts on one page and ends on another. *)
Definition crosses (currentY : Q) (el : Item) : bool :=
  negb (pageIndex currentY =? pageIndex (currentY + totalItemHeight el))%Z.

(** What one iteration leaves behind: the element as measured, the cursor it
    was met with, the inline [style.marginTop] written to it (if any) and the
    cursor after it. *)
Record Visit : Type := mkVisit {
  item : Item;
  cursorBefore : Q;
  styleMarginTop : option Q;
  cursorAfter : Q
}.

(** The body of [items.forEach((item) => { ... })]. *)
Definition visit (currentY : Q) (el : Item) : Visit :=
  if crosses currentY el then
    mkVisit el currentY
            (Some (marginTop el + pushDownAmount currentY))
            (currentY + (pushDownAmount currentY + totalItemHeight el))
  else
    mkVisit el currentY None (currentY + totalItemHeight el).

(** The whole [forEach]: the visits in document order and the final cursor. *)
Fixpoint forEach (items : list Item) (currentY : Q) : list Visit * Q :=
  match items with
  | [] => ([], currentY)
  | el :: rest =>
      let v := visit currentY el in
      let (vs, y) := forEach rest (cursorAfter v) in
      (v :: vs, y)
  end.

(** [let currentY = 0; if (header) currentY += header.offsetHeight;] followed
    by the loop. *)
Definition paginate (header : option Q) (items : list Item) : list Visit * Q :=
  forEach items (match header with Some h => 0 + h | None => 0 end).

(** Where the element itself (its margin box as measured, without the inserted
    space) lies in the infinite page once the loop has passed it. *)
Definition adjustedEndY (v : Visit) : Q := cursorAfter v.
Definition adjustedStartY (v : Visit) : Q :=
  cursorAfter v - totalItemHeight (item v).

Definition onOnePage (v : Visit) : Prop :=
  pageIndex (adjustedStartY v) = pageIndex (adjustedEndY v).

Definition nonneg (el : Item) : Prop :=
  0 <= offsetHeight el /\ 0 <= marginTop el /\ 0 <= marginBottom el.

(** The cursor values of a run, from the initial one on. *)
Definition cursorTrace (y0 : Q) (vs : list Visit) : list Q :=
  y0 :: map cursorAfter vs.

(** Three blocks of heights 300, 900 and 200 without margins. *)
Definition scenarioItems : list Item :=
  [mkItem 300 0 0; mkItem 900 0 0; mkItem 200 0 0].

(** Consecutive visits hand the cursor on. *)
Fixpoint chained (y : Q) (vs : list Visit) (yEnd : Q) : Prop :=
  match vs with
  | [] => y = yEnd
  | v :: rest => cursorBefore v = y /\ chained (cursorAfter v) rest yEnd
  end.

End Tetris.

(** ** The slicer (the same code at both call sites) *)

Module Slicer.

(** A jsPDF document: the pages already left behind and the page the next
    [addImage] draws on.  A page is the list of vertical offsets at which the
    full image was placed on it. *)
Definition Page : Type := list Q.

Record Pdf : Type := mkPdf {
  finished : list Page;
  current : Page
}.

(** [new jsPDF({...})] starts with one blank page. *)
Definition newPdf : Pdf := mkPdf [] [].
Definition addPage (pdf : Pdf) : Pdf := mkPdf (finished pdf ++ [current pdf]) [].
Definition addImage (y : Q) (pdf : Pdf) : Pdf :=
  mkPdf (finished pdf) (current pdf ++ [y]).
Definition pages (pdf : Pdf) : list Page := finished pdf ++ [current pdf].

Definition pdfWidth : Q := 210.
Definition pdfHeight : Q := 297.

(** [(canvas.height * pdfWidth) / canvas.width] *)
Definition imgHeight (canvasWidth canvasHeight : Q) : Q :=
  (canvasHeight * pdfWidth) / canvasWidth.

(** [while (heightLeft > 0) { pdf.addPage(); pdf.addImage(.., 0,
    -(imgHeight - heightLeft), ..); heightLeft -= pdfHeight; }].  The local
    [position] is assigned in the loop but never read again. *)
Equations? addPages (imgH heightLeft : Q) (pdf : Pdf) : Pdf
  by wf (Z.to_nat (Qceiling heightLeft)) lt :=
  addPages imgH heightLeft pdf with Qlt_le_dec 0 heightLeft := {
    | left _ => addPages imgH (heightLeft - pdfHeight)
                  (addImage (- (imgH - heightLeft)) (addPage pdf));
    | right _ => pdf }.
Proof.
  pose proof (Qle_ceiling heightLeft) as Hc.
  assert (H1 : (1 <= Qceiling heightLeft)%Z).
  { assert (H0 : 0 < inject_Z (Qceiling heightLeft)) by lra.
    rewrite <- (Zlt_Qlt 0) in H0. lia. }
  assert (H2 : (Qceiling (heightLeft - pdfHeight) <= Qceiling heightLeft + (-297))%Z).
  { rewrite <- (Qceiling_Z (Qceiling heightLeft + (-297))).
    apply Qceiling_resp_le.
    unfold pdfHeight. rewrite inject_Z_plus.
    change (inject_Z (-297)) with (- (297)). lra. }
  lia.
Qed.

(** Step 6 of the export: page 1 at [position = 0], then the loop. *)
Definition slice (canvasWidth canvasHeight : Q) : Pdf :=
  let imgH := imgHeight canvasWidth canvasHeight in
  let pdf := addImage 0 newPdf in
  addPages imgH (imgH - pdfHeight) pdf.

End Slicer.

(** ** The file name token *)

Module FileName.

Import Js.

Definition isDigit (c : N) : bool := ((48 <=? c) && (c <=? 57))%N.
Definition isLower (c : N) : bool := ((97 <=? c) && (c <=? 122))%N.
Definition isUpper (c : N) : bool := ((65 <=? c) && (c <=? 90))%N.

(** What [/[a-z0-9]/i] accepts (no [u] flag: a code unit above 127 is never
    folded onto an ASCII letter). *)
Definition isAlnumIgnoreCase (c : N) : bool := isLower c || isUpper c || isDigit c.

Definition underscore : N := 95.

(** [.replace(/[^a-z0-9]/gi, '_')] *)
Definition replaceNonAlnum (s : jsstring) : jsstring :=
  map (fun c => if isAlnumIgnoreCase c then c else underscore) s.

(** [.toLowerCase()] on ASCII code units; it is only applied to the result of
    [replaceNonAlnum], which holds nothing else. *)
Definition toLowerCase (s : jsstring) : jsstring :=
  map (fun c => if isUpper c then (c + 32)%N else c) s.

Definition safeName (name : jsstring) : jsstring :=
  toLowerCase (replaceNonAlnum name).

(** [`Relatorio_${safeName}.pdf`] of [src/App.tsx]. *)
Definition reportFileName (name : jsstring) : jsstring :=
  ofAscii "Relatorio_" ++ safeName name ++ ofAscii ".pdf".

(** [`Relatorio_${safeName}_${date}.pdf`] of the consolidated view, [date]
    being the already formatted [toLocaleDateString('pt-BR')] with [/] turned
    into [-]. *)
Definition consolidatedFileName (name date : jsstring) : jsstring :=
  ofAscii "Relatorio_" ++ safeName name ++ ofAscii "_" ++ date ++ ofAscii ".pdf".

Definition isLowerAlnum (c : N) : bool := isLower c || isDigit c.

(** "João D'Ávila Jr." *)
Definition joao : jsstring :=
  [74; 111; 227; 111; 32; 68; 39; 193; 118; 105; 108; 97; 32; 74; 114; 46]%N.

End FileName.

(** ** The markdown normalizer of [src/App.tsx] *)

Module Markdown.

Import Js.

Definition LF : N := 10.
Definition SP : N := 32.

(** [.replace(/([^\n])\n([^\n])/g, '$1 $2')]: matches are found left to right
    and the search resumes after the last unit of a match. *)
Fixpoint joinSingleBreaks (s : jsstring) : jsstring :=
  match s with
  | [] => []
  | a :: t =>
      match t with
      | nl :: b :: rest =>
          if (negb (a =? LF) && (nl =? LF) && negb (b =? LF))%N
          then a :: SP :: b :: joinSingleBreaks rest
          else a :: joinSingleBreaks t
      | _ => a :: joinSingleBreaks t
      end
  end.

(** What a maximal run of [run] copies of [c] becomes under
    [.replace(/c{atLeast,}/g, to)]. *)
Definition flushRun (c : N) (atLeast : nat) (to : jsstring) (run : nat) : jsstring :=
  if (atLeast <=? run)%nat then to else repeat c run.

(** [.replace(/c{atLeast,}/g, to)], scanning with the length of the run of [c]
    read so far. *)
Fixpoint collapseRuns (c : N) (atLeast : nat) (to : jsstring) (run : nat)
         (s : jsstring) : jsstring :=
  match s with
  | [] => flushRun c atLeast to run
  | x :: t =>
      if (x =? c)%N then collapseRuns c atLeast to (S run) t
      else flushRun c atLeast to run ++ x :: collapseRuns c atLeast to 0 t
  end.

(** [.replace(/\n{3,}/g, '\n\n')] *)
Definition limitBreaks (s : jsstring) : jsstring :=
  collapseRuns LF 3 [LF; LF] 0 s.

(** [.replace(/  +/g, ' ')] *)
Definition squeezeSpaces (s : jsstring) : jsstring :=
  collapseRuns SP 2 [SP] 0 s.

Definition normalizeMarkdown (text : jsstring) : jsstring :=
  match text with
  | [] => []
  | _ => squeezeSpaces (limitBreaks (joinSingleBreaks text))
  end.

(** Three one-letter lines: "a", "b", "c" separated by single line breaks. *)
Definition threeLines : jsstring := [97; LF; 98; LF; 99]%N.

End Markdown.

(** ** The export operation at its two call sites *)

Module Pipeline.

Import Js.

(** The stages of the pipeline in which an external call can raise. *)
Inductive Stage : Type :=
| Staging       (* cloneNode, class and style clean-up, container.appendChild *)
| Measurement   (* querySelectorAll('.pdf-item'), offsetHeight, getComputedStyle *)
| Capture       (* the settle delay and html2canvas *)
| Slicing       (* toDataURL, new jsPDF, addImage, addPage *)
| Saving.       (* pdf.save *)

Definition Stage_eqb (a b : Stage) : bool :=
  match a, b with
  | Staging, Staging | Measurement, Measurement | Capture, Capture
  | Slicing, Slicing | Saving, Saving => true
  | _, _ => false
  end.

(** DOM nodes by identity. *)
Definition Node : Type := nat.

(** What the operation can observe and change. *)
Record World : Type := mkWorld {
  bodyChildren : list Node;      (* children of document.body *)
  nextNode : Node;               (* identity of the next created element *)
  isGeneratingPdf : bool;        (* the React state behind the disabled trigger *)
  consoleErrors : list Stage;    (* console.error *)
  alerts : list string;          (* window.alert *)
  savedFiles : list (jsstring * Slicer.Pdf)
}.

(** The rendered report as the pagination pass reads it. *)
Record Report : Type := mkReport {
  header : option Q;             (* offsetHeight of '.p-6.border-b', if present *)
  items : list Tetris.Item       (* the '.pdf-item' elements in document order *)
}.

(** What the external calls answer during one run. *)
Record Env : Type := mkEnv {
  element : option Report;       (* getElementById / reportRef.current *)
  raises : option Stage;         (* the stage, if any, whose call raises *)
  canvasWidth : Q;               (* canvas.width, canvas.height of html2canvas *)
  canvasHeight : Q;
  today : jsstring               (* the formatted date of the consolidated view *)
}.

(** How a block of statements ends. *)
Inductive Completion (A : Type) : Type :=
| Normal (a : A)
| Throw (s : Stage)
| Return.
Arguments Normal {A} a.
Arguments Throw {A} s.
Arguments Return {A}.

Definition M (A : Type) : Type := World -> Completion A * World.

Definition ret {A} (a : A) : M A := fun w => (Normal a, w).

Definition bind {A B} (m : M A) (k : A -> M B) : M B :=
  fun w =>
    match m w with
    | (Normal a, w1) => k a w1
    | (Throw s, w1) => (Throw s, w1)
    | (Return, w1) => (Return, w1)
    end.

Notation "x <- m ;; k" := (bind m (fun x => k))
  (at level 61, m at next level, right associativity).
Notation "m ;; k" := (bind m (fun _ => k))
  (at level 61, right associativity).

(** [return;] *)
Definition earlyReturn {A} : M A := fun w => (Return, w).

(** [try { body } catch (error) { handler } finally { finalizer }] *)
Definition tryCatchFinally (body : M unit) (handler : Stage -> M unit)
           (finalizer : M unit) : M unit :=
  fun w =>
    let (c, w1) := body w in
    let (c1, w2) := match c with
                    | Throw s => handler s w1
                    | _ => (c, w1)
                    end in
    let (cf, w3) := finalizer w2 in
    match cf with
    | Normal _ => (c1, w3)
    | _ => (cf, w3)
    end.

(** The external call of stage [s] raises when the environment says so. *)
Definition external (env : Env) (s : Stage) : M unit :=
  fun w =>
    match raises env with
    | Some s' => if Stage_eqb s s' then (Throw s, w) else (Normal tt, w)
    | None => (Normal tt, w)
    end.

Definition setIsGeneratingPdf (b : bool) : M unit :=
  fun w => (Normal tt,
            mkWorld (bodyChildren w) (nextNode w) b (consoleErrors w)
                    (alerts w) (savedFiles w)).

(** [document.createElement('div')] *)
Definition createElement : M Node :=
  fun w => (Normal (nextNode w),
            mkWorld (bodyChildren w) (S (nextNode w)) (isGeneratingPdf w)
                    (consoleErrors w) (alerts w) (savedFiles w)).

(** [document.body.appendChild(n)] *)
Definition appendChild (n : Node) : M unit :=
  fun w => (Normal tt,
            mkWorld (bodyChildren w ++ [n]) (nextNode w) (isGeneratingPdf w)
                    (consoleErrors w) (alerts w) (savedFiles w)).

(** [document.body.removeChild(n)] *)
Definition removeChild (n : Node) : M unit :=
  fun w => (Normal tt,
            mkWorld (remove Nat.eq_dec n (bodyChildren w)) (nextNode w)
                    (isGeneratingPdf w) (consoleErrors w) (alerts w)
                    (savedFiles w)).

Definition consoleError (s : Stage) : M unit :=
  fun w => (Normal tt,
            mkWorld (bodyChildren w) (nextNode w) (isGeneratingPdf w)
                    (consoleErrors w ++ [s]) (alerts w) (savedFiles w)).

Definition alert (msg : string) : M unit :=
  fun w => (Normal tt,
            mkWorld (bodyChildren w) (nextNode w) (isGeneratingPdf w)
                    (consoleErrors w) (alerts w ++ [msg]) (savedFiles w)).

(** [pdf.save(name)] *)
Definition save (name : jsstring) (pdf : Slicer.Pdf) : M unit :=
  fun w => (Normal tt,
            mkWorld (bodyChildren w) (nextNode w) (isGeneratingPdf w)
                    (consoleErrors w) (alerts w) (savedFiles w ++ [(name, pdf)])).

(** [handleDownloadReportPDF] of [src/App.tsx]; [reportData] is the student
    name of the report on screen, if there is one. *)
Definition handleDownloadReportPDF (env : Env) (reportData : option jsstring)
  : M unit :=
  match reportData with
  | None => earlyReturn
  | Some name =>
      setIsGeneratingPdf true ;;
      tryCatchFinally
        (match element env with
         | None => earlyReturn
         | Some report =>
             container <- createElement ;;
             appendChild container ;;
             external env Staging ;;
             external env Measurement ;;
             let paginated := Tetris.paginate (header report) (items report) in
             external env Capture ;;
             removeChild container ;;
             external env Slicing ;;
             let pdf := Slicer.slice (canvasWidth env) (canvasHeight env) in
             external env Saving ;;
             save (FileName.reportFileName name) pdf
         end)
        (fun error => consoleError error ;; alert "Erro ao gerar PDF.")
        (setIsGeneratingPdf false)
  end.

(** [handleDownloadPDF] of [src/components/ConsolidatedStudentView.tsx]. *)
Definition handleDownloadPDF (env : Env) (studentName : jsstring) : M unit :=
  setIsGeneratingPdf true ;;
  match element env with
  | None => setIsGeneratingPdf false ;; earlyReturn
  | Some report =>
      tryCatchFinally
        (container <- createElement ;;
         appendChild container ;;
         external env Staging ;;
         external env Capture ;;
         removeChild container ;;
         external env Slicing ;;
         let pdf := Slicer.slice (canvasWidth env) (canvasHeight env) in
         external env Saving ;;
         save (FileName.consolidatedFileName studentName (today env)) pdf)
        (fun error => consoleError error ;;
                      alert "Erro ao gerar PDF. Tente novamente.")
        (setIsGeneratingPdf false)
  end.

(** The world an export leaves behind. *)
Definition after (op : M unit) (w : World) : World := snd (op w).

End Pipeline.

(** ** Numbers in strings *)

Module JsNum.

Import Js.

(** The decimal digits of a numeral as code units. *)
Fixpoint unitsOf (d : Decimal.uint) : jsstring :=
  match d with
  | Decimal.Nil => []
  | Decimal.D0 d => 48%N :: unitsOf d
  | Decimal.D1 d => 49%N :: unitsOf d
  | Decimal.D2 d => 50%N :: unitsOf d
  | Decimal.D3 d => 51%N :: unitsOf d
  | Decimal.D4 d => 52%N :: unitsOf d
  | Decimal.D5 d => 53%N :: unitsOf d
  | Decimal.D6 d => 54%N :: unitsOf d
  | Decimal.D7 d => 55%N :: unitsOf d
  | Decimal.D8 d => 56%N :: unitsOf d
  | Decimal.D9 d => 57%N :: unitsOf d
  end.

(** [`${n}`] for a non-negative integer. *)
Definition showNat (n : nat) : jsstring := unitsOf (Nat.to_uint n).

(** [`${z}`] for an integer. *)
Definition showZ (z : Z) : jsstring :=
  (if (z <? 0)%Z then [45%N] else []) ++ showNat (Z.abs_nat z).

End JsNum.

(** ** Assessments: history, latest result and trend
    ([src/App.tsx], [src/components/ConsolidatedStudentView.tsx]) *)

Module Assessments.

Import Js JsNum.

Inductive AssessmentType : Type :=
| DRAWING | WRITING | PHONOLOGICAL | MEMORY | MATH | READING.

Definition AssessmentType_eqb (a b : AssessmentType) : bool :=
  match a, b with
  | DRAWING, DRAWING | WRITING, WRITING | PHONOLOGICAL, PHONOLOGICAL
  | MEMORY, MEMORY | MATH, MATH | READING, READING => true
  | _, _ => false
  end.

(** [===] on strings. *)
Definition jsstring_eqb (a b : jsstring) : bool :=
  if list_eq_dec N.eq_dec a b then true else false.

(** The values of [enum DrawingPhase] and [enum WritingPhase]. *)
Definition GARATUJA_DESORDENADA : jsstring := ofAscii "Garatuja Desordenada".
Definition GARATUJA_ORDENADA : jsstring := ofAscii "Garatuja Ordenada".
Definition PRE_ESQUEMATISMO : jsstring :=
  ofAscii "Pr" ++ [233%N] ++ ofAscii "-Esquematismo".
Definition ESQUEMATISMO : jsstring := ofAscii "Esquematismo".
Definition REALISMO : jsstring := ofAscii "Realismo".
Definition PSEUDO_NATURALISMO : jsstring := ofAscii "Pseudo-Naturalismo".

Definition PRE_ALFABETICA : jsstring :=
  ofAscii "Pr" ++ [233%N] ++ ofAscii "-Alfab" ++ [233%N] ++ ofAscii "tica".
Definition ALFABETICA_PARCIAL : jsstring :=
  ofAscii "Alfab" ++ [233%N] ++ ofAscii "tica Parcial".
Definition ALFABETICA_COMPLETA : jsstring :=
  ofAscii "Alfab" ++ [233%N] ++ ofAscii "tica Completa".
Definition ALFABETICA_CONSOLIDADA : jsstring :=
  ofAscii "Alfab" ++ [233%N] ++ ofAscii "tica Consolidada".

Definition DRAWING_ORDER : list jsstring :=
  [GARATUJA_DESORDENADA; GARATUJA_ORDENADA; PRE_ESQUEMATISMO; ESQUEMATISMO;
   REALISMO; PSEUDO_NATURALISMO].

Definition WRITING_ORDER : list jsstring :=
  [PRE_ALFABETICA; ALFABETICA_PARCIAL; ALFABETICA_COMPLETA;
   ALFABETICA_CONSOLIDADA].

(** [interface AssessmentResult]; [date] is the time value
    [new Date(a.date).getTime()] of a valid date, [score] an integer. *)
Record AssessmentResult : Type := mkAssessment {
  id : jsstring;
  studentId : jsstring;
  date : Z;
  type : AssessmentType;
  phase : option jsstring;
  score : option Z;
  maxScore : option Z;
  notes : option jsstring;
  imageUrl : option jsstring;
  aiAnalysis : option jsstring
}.

(** [Array.prototype.sort(cmp)]: the sort is stable, and for a comparator that
    orders its arguments consistently every stable sort returns this list. *)
Fixpoint insertBy {A : Type} (cmp : A -> A -> Z) (x : A) (l : list A) : list A :=
  match l with
  | [] => [x]
  | y :: t => if (cmp x y <=? 0)%Z then x :: y :: t else y :: insertBy cmp x t
  end.

Definition sortBy {A : Type} (cmp : A -> A -> Z) (l : list A) : list A :=
  fold_right (insertBy cmp) [] l.

(** [(a, b) => new Date(b.date).getTime() - new Date(a.date).getTime()] *)
Definition newestFirst (a b : AssessmentResult) : Z := (date b - date a)%Z.

(** [a => a.studentId === studentId && a.type === type] *)
Definition ofStudentAndType (sid : jsstring) (ty : AssessmentType)
           (a : AssessmentResult) : bool :=
  jsstring_eqb (studentId a) sid && AssessmentType_eqb (type a) ty.

(** [getHistory] of the consolidated view. *)
Definition getHistory (assessments : list AssessmentResult) (sid : jsstring)
           (ty : AssessmentType) : list AssessmentResult :=
  sortBy newestFirst (filter (ofStudentAndType sid ty) assessments).

(** [getLatestAssessmentObj] of [src/App.tsx]:
    [sorted.length > 0 ? sorted[0] : null]. *)
Definition getLatestAssessmentObj (assessments : list AssessmentResult)
           (sid : jsstring) (ty : AssessmentType) : option AssessmentResult :=
  match sortBy newestFirst (filter (ofStudentAndType sid ty) assessments) with
  | [] => None
  | a :: _ => Some a
  end.

(** [arr.indexOf(x)], [x] possibly [undefined]. *)
Fixpoint indexFrom (i : Z) (x : jsstring) (l : list jsstring) : Z :=
  match l with
  | [] => (-1)%Z
  | y :: t => if jsstring_eqb y x then i else indexFrom (i + 1)%Z x t
  end.

Definition indexOf (l : list jsstring) (x : option jsstring) : Z :=
  match x with
  | Some s => indexFrom 0 s l
  | None => (-1)%Z
  end.

Inductive TrendType : Type := up | down | flat.

Record Trend : Type := mkTrend {
  trendType : TrendType;
  label : jsstring
}.

(** ['Regressão'], ['Estável'] *)
Definition REGRESSAO : jsstring := ofAscii "Regress" ++ [227%N] ++ ofAscii "o".
Definition ESTAVEL : jsstring := ofAscii "Est" ++ [225%N] ++ ofAscii "vel".

(** [x.score || 0] *)
Definition scoreOr0 (a : AssessmentResult) : Z :=
  match score a with Some z => z | None => 0%Z end.

(** [a] is at least as recent as [b]. *)
Definition notOlder (a b : AssessmentResult) : Prop := (date b <= date a)%Z.

(** [calculateTrend] of the consolidated view. *)
Definition calculateTrend (assessments : list AssessmentResult) (sid : jsstring)
           (ty : AssessmentType) : option Trend :=
  match getHistory assessments sid ty with
  | current :: previous :: _ =>
      match ty with
      | DRAWING =>
          let currIdx := indexOf DRAWING_ORDER (phase current) in
          let prevIdx := indexOf DRAWING_ORDER (phase previous) in
          if (prevIdx <? currIdx)%Z then Some (mkTrend up (ofAscii "Evoluiu de Fase"))
          else if (currIdx <? prevIdx)%Z then Some (mkTrend down REGRESSAO)
          else Some (mkTrend flat ESTAVEL)
      | WRITING =>
          let currIdx := indexOf WRITING_ORDER (phase current) in
          let prevIdx := indexOf WRITING_ORDER (phase previous) in
          if (prevIdx <? currIdx)%Z
          then Some (mkTrend up (ofAscii "Avan" ++ [231%N] ++ ofAscii "ou na Escrita"))
          else if (currIdx <? prevIdx)%Z then Some (mkTrend down REGRESSAO)
          else Some (mkTrend flat ESTAVEL)
      | MATH | READING =>
          let diff := (scoreOr0 current - scoreOr0 previous)%Z in
          if (0 <? diff)%Z
          then Some (mkTrend up (ofAscii "+" ++ showZ diff ++ ofAscii " pontos"))
          else if (diff <? 0)%Z
          then Some (mkTrend down (showZ diff ++ ofAscii " pontos"))
          else Some (mkTrend flat (ofAscii "Mantido"))
      | PHONOLOGICAL | MEMORY => None
      end
  | _ => None
  end.

End Assessments.

(** ** Notes written by the form and read back by the consolidated view
    ([handleSubmit] of [src/components/AssessmentForm.tsx]; [getReadingData],
    [getMathRadarData], [getPhonoData], [getMemoryData] of
    [src/components/ConsolidatedStudentView.tsx]) *)

Module Notes.

Import Js JsNum Assessments.

(** Source text to code units (UTF-8 sequences of up to three bytes). *)
Fixpoint decodeUtf8 (bytes : list N) : jsstring :=
  match bytes with
  | [] => []
  | b :: t =>
      if (b <? 192)%N then b :: decodeUtf8 t
      else if (b <? 224)%N then
        match t with
        | b2 :: t2 => ((b - 192) * 64 + (b2 - 128))%N :: decodeUtf8 t2
        | [] => [b]
        end
      else
        match t with
        | b2 :: b3 :: t3 =>
            ((b - 224) * 4096 + (b2 - 128) * 64 + (b3 - 128))%N :: decodeUtf8 t3
        | _ => b :: decodeUtf8 t
        end
  end.

Definition lit (s : string) : jsstring :=
  decodeUtf8 (map N_of_ascii (list_ascii_of_string s)).

(** What [\s] matches and what [trim], [parseInt] skip. *)
Definition isWhiteSpace (c : N) : bool :=
  (((9 <=? c) && (c <=? 13)) || (c =? 32) || (c =? 160) || (c =? 5760)
   || ((8192 <=? c) && (c <=? 8202)) || (c =? 8232) || (c =? 8233)
   || (c =? 8239) || (c =? 8287) || (c =? 12288) || (c =? 65279))%N.

Fixpoint dropWhile (f : N -> bool) (s : jsstring) : jsstring :=
  match s with
  | [] => []
  | x :: t => if f x then dropWhile f t else s
  end.

Fixpoint takeWhile (f : N -> bool) (s : jsstring) : jsstring :=
  match s with
  | [] => []
  | x :: t => if f x then x :: takeWhile f t else []
  end.

(** [s] without the prefix [p], if it starts with it. *)
Fixpoint stripPrefix (p s : jsstring) : option jsstring :=
  match p, s with
  | [], _ => Some s
  | a :: p', b :: s' => if (a =? b)%N then stripPrefix p' s' else None
  | _ :: _, [] => None
  end.

(** The value of a run of decimal digits. *)
Definition decValue (ds : jsstring) : Z :=
  fold_left (fun acc c => (acc * 10 + (Z.of_N c - 48))%Z) ds 0%Z.

Definition isHexDigit (c : N) : bool :=
  (FileName.isDigit c || ((97 <=? c) && (c <=? 102)) || ((65 <=? c) && (c <=? 70)))%N.

Definition hexDigitValue (c : N) : Z :=
  if FileName.isDigit c then (Z.of_N c - 48)%Z
  else if (97 <=? c)%N then (Z.of_N c - 87)%Z else (Z.of_N c - 55)%Z.

Definition hexValue (ds : jsstring) : Z :=
  fold_left (fun acc c => (acc * 16 + hexDigitValue c)%Z) ds 0%Z.

(** An optional sign at the head of [s], and what follows it. *)
Definition splitSign (s : jsstring) : Z * jsstring :=
  match s with
  | c :: t =>
      if (c =? 45)%N then ((-1)%Z, t)
      else if (c =? 43)%N then (1%Z, t)
      else (1%Z, s)
  | [] => (1%Z, [])
  end.

(** What follows a leading [0x] or [0X], if [s] starts with one. *)
Definition hexBody (s : jsstring) : option jsstring :=
  match s with
  | z :: x :: t =>
      if ((z =? 48) && ((x =? 120) || (x =? 88)))%N then Some t else None
  | _ => None
  end.

(** [parseInt(s)] without a radix; [None] is [NaN]. *)
Definition parseIntString (s : jsstring) : option Z :=
  let '(sign, s2) := splitSign (dropWhile isWhiteSpace s) in
  match hexBody s2 with
  | Some t =>
      match takeWhile isHexDigit t with
      | [] => None
      | ds => Some (sign * hexValue ds)%Z
      end
  | None =>
      match takeWhile FileName.isDigit s2 with
      | [] => None
      | ds => Some (sign * decValue ds)%Z
      end
  end.

(** [parseInt(v)] for a string or [undefined]. *)
Definition parseInt (v : option jsstring) : option Z :=
  match v with
  | Some s => parseIntString s
  | None => None
  end.

(** The capture of [/lit\s*(\d+)/] tried at the start of [s]. *)
Definition digitsAt (literal s : jsstring) : option jsstring :=
  match stripPrefix literal s with
  | Some rest =>
      match takeWhile FileName.isDigit (dropWhile isWhiteSpace rest) with
      | [] => None
      | ds => Some ds
      end
  | None => None
  end.

(** [s.match(/lit\s*(\d+)/)?.[1]]: the first position at which the pattern
    matches. *)
Fixpoint matchDigits (literal s : jsstring) : option jsstring :=
  match digitsAt literal s with
  | Some ds => Some ds
  | None =>
      match s with
      | [] => None
      | _ :: t => matchDigits literal t
      end
  end.

(** [s.split(sep)] for a separator of at least one unit: [skip] units of a
    separator just met are still to pass, [acc] is the piece read so far. *)
Fixpoint splitFrom (sep : jsstring) (skip : nat) (acc s : jsstring)
  : list jsstring :=
  match s with
  | [] => [acc]
  | x :: t =>
      match skip with
      | S k => splitFrom sep k acc t
      | O =>
          match stripPrefix sep s with
          | Some _ => acc :: splitFrom sep (List.length sep - 1) [] t
          | None => splitFrom sep 0 (acc ++ [x]) t
          end
      end
  end.

Definition split (sep s : jsstring) : list jsstring := splitFrom sep 0 [] s.

(** [const [label, val] = part.split(': ')] *)
Definition labelAndValue (part : jsstring) : jsstring * option jsstring :=
  match split (lit ": ") part with
  | l :: v :: _ => (l, Some v)
  | [l] => (l, None)
  | [] => ([], None)
  end.

(** [table[key]] on an object literal. *)
Inductive Lookup (A : Type) : Type :=
| Own (a : A)        (* a property of the literal *)
| Inherited          (* a property of Object.prototype *)
| Missing.           (* undefined *)
Arguments Own {A} a.
Arguments Inherited {A}.
Arguments Missing {A}.

Definition objectPrototypeKeys : list jsstring :=
  map lit ["constructor"; "hasOwnProperty"; "isPrototypeOf";
           "propertyIsEnumerable"; "toLocaleString"; "toString"; "valueOf";
           "__proto__"; "__defineGetter__"; "__defineSetter__";
           "__lookupGetter__"; "__lookupSetter__"]%string.

Definition getProperty {A : Type} (table : list (jsstring * A))
           (key : option jsstring) : Lookup A :=
  let k := match key with Some k => k | None => lit "undefined" end in
  match find (fun kv => jsstring_eqb (fst kv) k) table with
  | Some (_, a) => Own a
  | None => if existsb (jsstring_eqb k) objectPrototypeKeys
            then Inherited else Missing
  end.

(** [!x.notes], [!x.aiAnalysis]: undefined or empty. *)
Definition present (s : option jsstring) : option jsstring :=
  match s with
  | Some (c :: t) => Some (c :: t)
  | _ => None
  end.

(** *** Reading *)

(** [baseResult.aiAnalysis] of a reading assessment. *)
Definition readingAnalysis (fluencyScore decodingScore comprehensionScore : nat)
           (reasoning : jsstring) : jsstring :=
  lit "Fluência: " ++ showNat fluencyScore ++
  lit "/10. Decodificação: " ++ showNat decodingScore ++
  lit "/10. Compreensão: " ++ showNat comprehensionScore ++
  lit "/10. " ++ reasoning.

Record RadarPoint : Type := mkRadarPoint {
  subject : jsstring;
  A : option Z;
  fullMark : Z
}.

(** [parseInt(text.match(re)?.[1] || 0)] *)
Definition capturedInt (literal text : jsstring) : option Z :=
  match matchDigits literal text with
  | Some ds => parseIntString ds
  | None => Some 0%Z
  end.

Definition getReadingData (latestReading : option AssessmentResult)
  : option (list RadarPoint) :=
  match latestReading with
  | None => None
  | Some a =>
      match present (aiAnalysis a) with
      | None => None
      | Some text =>
          Some [mkRadarPoint (lit "Fluência")
                             (capturedInt (lit "Fluência:") text) 10;
                mkRadarPoint (lit "Decodif.")
                             (capturedInt (lit "Decodificação:") text) 10;
                mkRadarPoint (lit "Compreens.")
                             (capturedInt (lit "Compreensão:") text) 10]
      end
  end.

(** *** Mathematics *)

(** [formsData[MATH].scores], with the keys of [INITIAL_MATH_STATE] in their
    order. *)
Record MathScores : Type := mkMathScores {
  counting : nat; numberRec : nat; size : nat; shapes : nat; patterns : nat;
  correspondence : nat; quantity : nat; classification : nat; spatial : nat;
  math : nat
}.

Definition mathLabels : list jsstring :=
  map lit ["Contagem"; "Números"; "Tamanho"; "Formas"; "Padrões"; "Corresp.";
           "Quant."; "Classif."; "Espacial"; "Cálculo"]%string.

Definition mathValues (sc : MathScores) : list nat :=
  [counting sc; numberRec sc; size sc; shapes sc; patterns sc;
   correspondence sc; quantity sc; classification sc; spatial sc; math sc].

(** [arr.join(sep)] *)
Fixpoint join (sep : jsstring) (parts : list jsstring) : jsstring :=
  match parts with
  | [] => []
  | [p] => p
  | p :: rest => p ++ sep ++ join sep rest
  end.

(** [baseResult.notes] of a mathematics assessment. *)
Definition mathNotes (sc : MathScores) : jsstring :=
  join (lit "; ")
       (map (fun lv => fst lv ++ lit ": " ++ showNat (snd lv))
            (combine mathLabels (mathValues sc))).

Definition getMathRadarData (latestMath : option AssessmentResult)
  : list RadarPoint :=
  match latestMath with
  | None => []
  | Some a =>
      match present (notes a) with
      | None => []
      | Some text =>
          map (fun part =>
                 let '(label, val) := labelAndValue part in
                 mkRadarPoint label (parseInt val) 10)
              (split (lit "; ") text)
      end
  end.

(** *** Memory *)

(** [baseResult.notes] of a memory assessment. *)
Definition memoryNotes (auditory visual functional : nat) : jsstring :=
  lit "Auditiva: " ++ showNat auditory ++ lit ", Visual: " ++ showNat visual ++
  lit ", Funcional: " ++ showNat functional.

Record MemoryPoint : Type := mkMemoryPoint {
  memoryName : jsstring;
  memoryLevel : option Z;
  labelName : Lookup jsstring
}.

Definition levelToLabel : list (jsstring * jsstring) :=
  [(lit "1", lit "Baixo"); (lit "2", lit "Médio"); (lit "3", lit "Alto")].

Definition getMemoryData (latestMemory : option AssessmentResult)
  : list MemoryPoint :=
  match latestMemory with
  | None => []
  | Some a =>
      match present (notes a) with
      | None => []
      | Some text =>
          map (fun part =>
                 let '(label, val) := labelAndValue part in
                 mkMemoryPoint label (parseInt val) (getProperty levelToLabel val))
              (split (lit ", ") text)
      end
  end.

(** *** Phonological awareness *)

(** [`${map[level]}`] with [map = {1: 'Não iniciou', 2: 'Em processo',
    3: 'Consolidado'}]. *)
Definition levelText (level : nat) : jsstring :=
  match level with
  | 1%nat => lit "Não iniciou"
  | 2%nat => lit "Em processo"
  | 3%nat => lit "Consolidado"
  | _ => lit "undefined"
  end.

(** [baseResult.notes] of a phonological assessment. *)
Definition phonoNotes (rhyme alliteration syllables phonemes : nat) : jsstring :=
  lit "Rimas: " ++ levelText rhyme ++
  lit "; Aliterações: " ++ levelText alliteration ++
  lit "; Seg. Silábica: " ++ levelText syllables ++
  lit "; Seg. Fonêmica: " ++ levelText phonemes.

(** The value of [levelToNum[val] || 0]. *)
Inductive LevelValue : Type :=
| LevelNumber (z : Z)
| LevelInherited.

Record PhonoPoint : Type := mkPhonoPoint {
  phonoName : jsstring;
  phonoLevel : LevelValue;
  phonoLabel : option jsstring
}.

Definition levelToNum : list (jsstring * Z) :=
  [(lit "Não iniciou", 1%Z); (lit "Em processo", 2%Z); (lit "Consolidado", 3%Z)].

Definition getPhonoData (latestPhono : option AssessmentResult)
  : list PhonoPoint :=
  match latestPhono with
  | None => []
  | Some a =>
      match present (notes a) with
      | None => []
      | Some text =>
          map (fun part =>
                 let '(label, val) := labelAndValue part in
                 mkPhonoPoint label
                   (match getProperty levelToNum val with
                    | Own z => LevelNumber z
                    | Inherited => LevelInherited
                    | Missing => LevelNumber 0
                    end)
                   val)
              (split (lit "; ") text)
      end
  end.

(** The label a stored memory level is read back with. *)
Definition readBackLabel (level : nat) : Lookup jsstring :=
  match level with
  | 1%nat => Own (lit "Baixo")
  | 2%nat => Own (lit "Médio")
  | 3%nat => Own (lit "Alto")
  | _ => Missing
  end.

(** The level a stored level is read back as. *)
Definition readBackLevel (level : nat) : Z :=
  match level with
  | 1%nat => 1%Z
  | 2%nat => 2%Z
  | 3%nat => 3%Z
  | _ => 0%Z
  end.

End Notes.

(** ** Shapes of file names *)

Module FileNameShape.

Import FileName.

Definition fileNameUnit (c : N) : Prop :=
  isAlnumIgnoreCase c = true \/ c = underscore \/ c = 46%N.

End FileNameShape.

(** ** Bold spans of the report renderer ([parseBold] of [src/App.tsx]) *)

Module Bold.

Import Js.

Definition STAR : N := 42.

(** What [.] does not match. *)
Definition isLineTerminator (c : N) : bool :=
  ((c =? 10) || (c =? 13) || (c =? 8232) || (c =? 8233))%N.

(** After two opening stars: the shortest run of [.] up to two closing
    stars, and what follows them. *)
Fixpoint closeBold (rest : jsstring) : option (jsstring * jsstring) :=
  match rest with
  | [] => None
  | x :: t =>
      match t with
      | [] => None
      | y :: t' =>
          if ((x =? STAR) && (y =? STAR))%N then Some ([], t')
          else if isLineTerminator x then None
          else match closeBold t with
               | Some (content, after) => Some (x :: content, after)
               | None => None
               end
      end
  end.

(** The text the pattern of [parseBold] matches at the start of [s], if it
    matches there. *)
Definition boldAt (s : jsstring) : option jsstring :=
  match s with
  | a :: b :: rest =>
      if ((a =? STAR) && (b =? STAR))%N then
        match closeBold rest with
        | Some (content, _) => Some (STAR :: STAR :: content ++ [STAR; STAR])
        | None => None
        end
      else None
  | _ => None
  end.

(** [str.split(re)] for the pattern of [parseBold], two stars, the shortest
    run of [.] and two stars, in a capture group: texts between matches
    alternate with the matches; [skip] units of the match just met are still
    to pass. *)
Fixpoint splitBoldFrom (skip : nat) (acc s : jsstring) : list jsstring :=
  match s with
  | [] => [acc]
  | x :: t =>
      match skip with
      | S k => splitBoldFrom k acc t
      | O =>
          match boldAt s with
          | Some m => acc :: m :: splitBoldFrom (List.length m - 1) [] t
          | None => splitBoldFrom 0 (acc ++ [x]) t
          end
      end
  end.

Definition splitBold (str : jsstring) : list jsstring := splitBoldFrom 0 [] str.

(** What the renderer returns for a part: the text, or a [<strong>]. *)
Inductive Inline : Type :=
| Text (s : jsstring)
| Strong (s : jsstring).

Definition startsWithStars (part : jsstring) : bool :=
  match part with
  | a :: b :: _ => ((a =? STAR) && (b =? STAR))%N
  | _ => false
  end.

Definition endsWithStars (part : jsstring) : bool :=
  startsWithStars (rev part).

(** [part.slice(2, -2)] *)
Definition slice2 (part : jsstring) : jsstring :=
  firstn (List.length part - 4) (skipn 2 part).

Definition parseBold (str : jsstring) : list Inline :=
  map (fun part =>
         if startsWithStars part && endsWithStars part
         then Strong (slice2 part) else Text part)
      (splitBold str).

End Bold.

(** ** Resizing an uploaded image ([compressAndResizeImage] of
    [src/components/AssessmentForm.tsx]) *)

Module Resize.

Definition MAX_WIDTH : Q := 1024.
Definition MAX_HEIGHT : Q := 1024.

(** Half the distance between 1 and the next double: 2^-53. *)
Definition eps : Q := 1 # 9007199254740992.

(** The results that occur here lie between 2^-23 and 2^33. *)
Definition inRange (x : Q) : Prop := (1 # 8388608) <= x /\ x <= 8589934592.

(** What is used of the arithmetic on doubles: [fl x] is the double the exact
    result [x] of a division or a multiplication is rounded to.  Rounding to
    nearest is monotone, leaves the integers that occur here as they are, and
    stays within the relative error [eps]. *)
Record RoundsLikeDouble (fl : Q -> Q) : Prop := mkRounds {
  fl_proper : forall x y, x == y -> fl x == fl y;
  fl_monotone : forall x y, inRange x -> inRange y -> x <= y -> fl x <= fl y;
  fl_exact : forall z : Z, (1 <= z <= 8589934592)%Z ->
                           fl (inject_Z z) == inject_Z z;
  fl_error : forall x, inRange x ->
                       x * (1 - eps) <= fl x /\ fl x <= x * (1 + eps)
}.

(** The resize logic on [img.width], [img.height] (integers): the [width] and
    [height] the image is drawn with; [height *= MAX_WIDTH / width] is a
    rounded division followed by a rounded multiplication. *)
Definition resize (fl : Q -> Q) (imgWidth imgHeight : Z) : Q * Q :=
  let width := inject_Z imgWidth in
  let height := inject_Z imgHeight in
  if Qlt_le_dec height width then
    if Qlt_le_dec MAX_WIDTH width
    then (MAX_WIDTH, fl (height * fl (MAX_WIDTH / width)))
    else (width, height)
  else
    if Qlt_le_dec MAX_HEIGHT height
    then (fl (width * fl (MAX_HEIGHT / height)), MAX_HEIGHT)
    else (width, height).

(** [canvas.width = width; canvas.height = height]: the canvas takes the
    integer part. *)
Definition canvasSize (fl : Q -> Q) (imgWidth imgHeight : Z) : Z * Z :=
  (Qfloor (fst (resize fl imgWidth imgHeight)),
   Qfloor (snd (resize fl imgWidth imgHeight))).

End Resize.

(** ** Requesting a report ([handleGenerateReport] of [src/App.tsx],
    [generateStudentReport] of [src/services/geminiService.ts]) *)

Module ReportRequest.

Import Js Assessments.

Record Student : Type := mkStudent {
  studentKey : jsstring;      (* id *)
  studentName : jsstring      (* name *)
}.

(** What [ai.models.generateContent] does with a request. *)
Inductive ServiceAnswer : Type :=
| Rejects
| Resolves (text : option jsstring).     (* response.text *)

Record AppState : Type := mkAppState {
  reportLoading : bool;
  reportData : option (jsstring * Student);
  alerts : list jsstring;
  requests : list (jsstring * list AssessmentResult)
}.

(** ['Erro ao gerar relatório.'] *)
Definition ERRO_RELATORIO : jsstring :=
  ofAscii "Erro ao gerar relat" ++ [243%N] ++ ofAscii "rio.".

(** ['É necessário realizar sondagens antes de gerar o relatório.'] *)
Definition SEM_SONDAGENS : jsstring :=
  [201%N] ++ ofAscii " necess" ++ [225%N] ++
  ofAscii "rio realizar sondagens antes de gerar o relat" ++ [243%N] ++
  ofAscii "rio.".

(** [generateStudentReport]: the request is sent; the answer is the text of
    the response, or the fixed text when the response has none. *)
Definition generateStudentReport (answer : ServiceAnswer) (name : jsstring)
           (studentAssessments : list AssessmentResult) (st : AppState)
  : option jsstring * AppState :=
  let st1 := mkAppState (reportLoading st) (reportData st) (alerts st)
                        (requests st ++ [(name, studentAssessments)]) in
  match answer with
  | Rejects => (None, st1)
  | Resolves (Some (c :: t)) => (Some (c :: t), st1)
  | Resolves _ => (Some ERRO_RELATORIO, st1)
  end.

Definition setReportLoading (b : bool) (st : AppState) : AppState :=
  mkAppState b (reportData st) (alerts st) (requests st).

Definition alert (msg : jsstring) (st : AppState) : AppState :=
  mkAppState (reportLoading st) (reportData st) (alerts st ++ [msg]) (requests st).

Definition setReportData (d : jsstring * Student) (st : AppState) : AppState :=
  mkAppState (reportLoading st) (Some d) (alerts st) (requests st).

(** [handleGenerateReport]; the result of [generateStudentReport] is [None]
    when the awaited promise rejects. *)
Definition handleGenerateReport (answer : ServiceAnswer)
           (assessments : list AssessmentResult) (student : Student)
           (st : AppState) : AppState :=
  let studentAssessments :=
    filter (fun a => jsstring_eqb (studentId a) (studentKey student)) assessments in
  match studentAssessments with
  | [] => alert SEM_SONDAGENS st
  | _ :: _ =>
      let st1 := setReportLoading true st in
      let st2 :=                                          (* try *)
        match generateStudentReport answer (studentName student)
                                    studentAssessments st1 with
        | (Some reportText, st') => setReportData (reportText, student) st'
        | (None, st') => alert ERRO_RELATORIO st'         (* catch *)
        end in
      setReportLoading false st2                          (* finally *)
  end.

End ReportRequest.

(** ** Runs of a code unit in a string *)

Module Runs.

Import Js.

(** Every run of [c] in [s] is shorter than [limit], [run] copies of [c]
    standing right before [s]. *)
Fixpoint runsBelow (c : N) (limit run : nat) (s : jsstring) : bool :=
  match s with
  | [] => true
  | x :: t =>
      if (x =? c)%N then (S run <? limit)%nat && runsBelow c limit (S run) t
      else runsBelow c limit 0 t
  end.

(** Neither a line break nor a space. *)
Definition isInk (c : N) : bool :=
  negb (c =? Markdown.LF)%N && negb (c =? Markdown.SP)%N.

End Runs.

(** * Properties *)

(** ** Page-break insertion *)

Section TetrisFacts.

Import Tetris.

Local Notation "'U'" := PAGE_CONTENT_HEIGHT.

Lemma usable_height_value : U == 1063.
Proof. reflexivity. Qed.

Lemma usable_height_pos : 0 < U.
Proof. reflexivity. Qed.

#[local] Instance pageIndex_comp : Proper (Qeq ==> eq) pageIndex.
Proof. intros x y Hxy. unfold pageIndex. now rewrite Hxy. Qed.

Lemma pageIndex_bounds (y : Q) :
  inject_Z (pageIndex y) * U <= y /\ y < inject_Z (pageIndex y + 1) * U.
Proof.
  unfold pageIndex.
  pose proof usable_height_pos as HU.
  pose proof (Qfloor_le (y / U)) as Hlo.
  pose proof (Qlt_floor (y / U)) as Hhi.
  assert (Hy : y == (y / U) * U).
  { rewrite Qmult_comm, Qmult_div_r; [reflexivity | lra]. }
  set (q := y / U) in *.
  split.
  - apply Qle_trans with (q * U); [apply Qmult_le_compat_r; lra | lra].
  - apply Qle_lt_trans with (q * U); [lra | apply Qmult_lt_compat_r; lra].
Qed.

Lemma pageIndex_unique (k : Z) (y : Q) :
  inject_Z k * U <= y -> y < inject_Z (k + 1) * U -> pageIndex y = k.
Proof.
  intros Hlo Hhi.
  pose proof usable_height_pos as HU.
  unfold pageIndex.
  assert (Hq1 : inject_Z k <= y / U) by (apply Qle_shift_div_l; assumption).
  assert (Hq2 : y / U < inject_Z (k + 1)) by (apply Qlt_shift_div_r; assumption).
  apply Qfloor_resp_le in Hq1. rewrite Qfloor_Z in Hq1.
  pose proof (Qfloor_le (y / U)) as Hf.
  assert (Hlt : inject_Z (Qfloor (y / U)) < inject_Z (k + 1)) by lra.
  rewrite <- Zlt_Qlt in Hlt. lia.
Qed.

Lemma remainingSpaceOnPage_pos (y : Q) : 0 < remainingSpaceOnPage y.
Proof.
  unfold remainingSpaceOnPage.
  destruct (pageIndex_bounds y) as [_ Hhi]. lra.
Qed.

Lemma forEach_items (items : list Item) (y : Q) :
  map item (fst (forEach items y)) = items.
Proof.
  revert y; induction items as [|el rest IH]; intros y; simpl; [reflexivity|].
  specialize (IH (cursorAfter (visit y el))).
  destruct (forEach rest (cursorAfter (visit y el))) as [vs y'].
  simpl in *. rewrite IH.
  unfold visit; destruct (crosses y el); reflexivity.
Qed.

Lemma forEach_chained (items : list Item) (y : Q) :
  chained y (fst (forEach items y)) (snd (forEach items y)).
Proof.
  revert y; induction items as [|el rest IH]; intros y; simpl; [reflexivity|].
  specialize (IH (cursorAfter (visit y el))).
  destruct (forEach rest (cursorAfter (visit y el))) as [vs y'].
  simpl in *. split; [|exact IH].
  unfold visit; destruct (crosses y el); reflexivity.
Qed.

(** A property of every single iteration holds for every visit of a run. *)
Lemma forEach_Forall (P : Visit -> Prop) :
  (forall y el, P (visit y el)) ->
  forall items y, Forall P (fst (forEach items y)).
Proof.
  intros HP items; induction items as [|el rest IH]; intros y; simpl.
  - constructor.
  - specialize (IH (cursorAfter (visit y el))).
    destruct (forEach rest (cursorAfter (visit y el))) as [vs y'].
    simpl in *. constructor; [apply HP | exact IH].
Qed.

Lemma visit_item (y : Q) (el : Item) : item (visit y el) = el.
Proof. unfold visit; destruct (crosses y el); reflexivity. Qed.

Lemma visit_cursorBefore (y : Q) (el : Item) : cursorBefore (visit y el) = y.
Proof. unfold visit; destruct (crosses y el); reflexivity. Qed.

Lemma inject_Z_succ_mult (k : Z) (u : Q) :
  inject_Z (k + 1) * u == inject_Z k * u + u.
Proof. rewrite inject_Z_plus. change (inject_Z 1) with 1. ring. Qed.

(** One iteration leaves a block that fits under the padded page on one page. *)
Lemma visit_onOnePage (y : Q) (el : Item) :
  nonneg el -> totalItemHeight el + 40 < U -> onOnePage (visit y el).
Proof.
  intros (Hh & Ht & Hb) Hfit.
  assert (Htot : 0 <= totalItemHeight el) by (unfold totalItemHeight; lra).
  pose proof usable_height_pos as HU.
  unfold onOnePage, adjustedStartY, adjustedEndY, visit.
  destruct (crosses y el) eqn:Hc; cbn [cursorAfter item].
  - unfold pushDownAmount, remainingSpaceOnPage.
    destruct (pageIndex_bounds y) as [Hlo Hhi].
    set (k := pageIndex y) in *.
    pose proof (inject_Z_succ_mult (k + 1) U) as Hk2.
    set (a := inject_Z (k + 1) * U) in *.
    transitivity (k + 1)%Z; [|symmetry]; apply pageIndex_unique; fold a; lra.
  - unfold crosses in Hc. apply negb_false_iff, Z.eqb_eq in Hc.
    rewrite <- Hc. apply pageIndex_comp. ring.
Qed.

Lemma Forall_on_items (P : Item -> Prop) (R : Visit -> Prop) (vs : list Visit) :
  Forall P (map item vs) ->
  Forall (fun v => P (item v) -> R v) vs ->
  Forall R vs.
Proof.
  induction vs as [|v vs IH]; intros HP HR; constructor;
    inversion HP; inversion HR; subst; auto.
Qed.

(** The bound is sharp: a pushed block that does not fit under the pad still
    crosses the next cut. *)
Lemma pushed_block_straddles (y : Q) (el : Item) :
  nonneg el -> crosses y el = true -> U <= totalItemHeight el + 40 ->
  ~ onOnePage (visit y el).
Proof.
  intros (Hh & Ht & Hb) Hc Hbig.
  pose proof usable_height_pos as HU.
  assert (H40 : 40 < U) by reflexivity.
  unfold onOnePage, adjustedStartY, adjustedEndY, visit.
  rewrite Hc; cbn [cursorAfter item].
  unfold pushDownAmount, remainingSpaceOnPage.
  destruct (pageIndex_bounds y) as [Hlo Hhi].
  set (k := pageIndex y) in *.
  pose proof (inject_Z_succ_mult (k + 1) U) as Hk2.
  set (a := inject_Z (k + 1) * U) in *.
  set (e := y + (a - y + 40 + totalItemHeight el)).
  assert (Hs : pageIndex (e - totalItemHeight el) = (k + 1)%Z).
  { apply pageIndex_unique; fold a; unfold e; lra. }
  rewrite Hs. intros Heq.
  destruct (pageIndex_bounds e) as [_ He].
  rewrite <- Heq in He. fold a in He. unfold e in He. lra.
Qed.

(** One iteration: the block is left on one page exactly when it was not
    pushed or fits under the padded page. *)
Lemma visit_onOnePage_iff (y : Q) (el : Item) :
  nonneg el ->
  (onOnePage (visit y el) <->
   styleMarginTop (visit y el) = None \/ totalItemHeight el + 40 < U).
Proof.
  intros Hnn. destruct (crosses y el) eqn:Hc.
  - assert (Hs : styleMarginTop (visit y el) <> None)
      by (unfold visit; rewrite Hc; discriminate).
    split.
    + intros Hon. right.
      destruct (Qlt_le_dec (totalItemHeight el + 40) U) as [Hlt|Hge];
        [exact Hlt|].
      exfalso. now apply (pushed_block_straddles y el).
    + intros [Hnone|Hfit]; [contradiction | now apply visit_onOnePage].
  - assert (Hon : onOnePage (visit y el)).
    { unfold onOnePage, adjustedStartY, adjustedEndY, visit. rewrite Hc.
      cbn [cursorAfter item].
      unfold crosses in Hc. apply negb_false_iff, Z.eqb_eq in Hc.
      rewrite <- Hc. apply pageIndex_comp. ring. }
    split; [intros _; left; unfold visit; now rewrite Hc | intros _; exact Hon].
Qed.

(** C1 (as amended): the pass visits every block, in order, and leaves each of
    them entirely within one page, the only exception being the pushed blocks
    whose total height plus the 40px top pad reaches one usable page height:
    a block lies on one page exactly when it was not pushed or its total
    height plus 40 is below the usable page height. *)
Theorem no_straddle_under_padded_page (header : option Q) (items : list Item) :
  Forall nonneg items ->
  map item (fst (paginate header items)) = items /\
  chained (match header with Some h => 0 + h | None => 0 end)
          (fst (paginate header items)) (snd (paginate header items)) /\
  Forall (fun v =>
            onOnePage v <->
            styleMarginTop v = None \/ totalItemHeight (item v) + 40 < U)
         (fst (paginate header items)).
Proof.
  intros Hnn. unfold paginate.
  split; [apply forEach_items|]. split; [apply forEach_chained|].
  apply Forall_on_items with (P := nonneg).
  - rewrite forEach_items. exact Hnn.
  - apply forEach_Forall. intros y el Hel.
    rewrite visit_item in *. now apply visit_onOnePage_iff.
Qed.

(** C1 (as stated) fails: after a block of height 100, a block of height 1050
    (at most the usable 1063) is pushed to 1103 and ends at 2153, on the next
    page. *)
Lemma no_straddle_counterexample :
  exists v,
    In v (fst (paginate None [mkItem 100 0 0; mkItem 1050 0 0])) /\
    nonneg (item v) /\
    totalItemHeight (item v) <= U /\
    adjustedStartY v == 1103 /\ adjustedEndY v == 2153 /\
    pageIndex (adjustedStartY v) = 1%Z /\ pageIndex (adjustedEndY v) = 2%Z /\
    ~ onOnePage v.
Proof.
  exists (visit (0 + (100 + 0 + 0)) (mkItem 1050 0 0)).
  split; [right; left; reflexivity|].
  repeat split; try (vm_compute; congruence).
Qed.

(** C3: a block whose start page differs from its end page gets the top margin
    marginTop + remaining + 40 and moves the cursor by (remaining + 40) plus
    its total height, with remaining = (startPage + 1) * usableHeight -
    currentY; any other block moves the cursor by its total height and is
    left unmutated. *)
Theorem push_rule (header : option Q) (items : list Item) :
  map item (fst (paginate header items)) = items /\
  chained (match header with Some h => 0 + h | None => 0 end)
          (fst (paginate header items)) (snd (paginate header items)) /\
  Forall (fun v =>
            let currentY := cursorBefore v in
            let blockTotalHeight :=
              offsetHeight (item v) + marginTop (item v) + marginBottom (item v) in
            let startPage := Qfloor (currentY / U) in
            let endPage := Qfloor ((currentY + blockTotalHeight) / U) in
            let remaining := inject_Z (startPage + 1) * U - currentY in
            if (startPage =? endPage)%Z then
              styleMarginTop v = None /\
              cursorAfter v == currentY + blockTotalHeight
            else
              (exists m, styleMarginTop v = Some m /\
                         m == marginTop (item v) + remaining + 40) /\
              cursorAfter v == currentY + (remaining + 40) + blockTotalHeight)
         (fst (paginate header items)).
Proof.
  unfold paginate. split; [apply forEach_items|].
  split; [apply forEach_chained|].
  apply forEach_Forall. intros y el. cbv zeta.
  rewrite visit_item, visit_cursorBefore.
  unfold visit, crosses, pageIndex, totalItemHeight.
  destruct (Qfloor (y / U) =? _)%Z; cbn [negb styleMarginTop cursorAfter].
  - split; reflexivity.
  - split.
    + eexists; split; [reflexivity|].
      unfold pushDownAmount, remainingSpaceOnPage, pageIndex. ring.
    + unfold pushDownAmount, remainingSpaceOnPage, pageIndex, totalItemHeight. ring.
Qed.

(** The scenario run: its three blocks are visited and each ends up on one
    page, block 1 because it is not pushed, blocks 2 and 3 because they fit
    under the padded page. *)
Lemma no_straddle_under_padded_page_witness :
  Forall nonneg scenarioItems /\
  map item (fst (paginate None scenarioItems)) = scenarioItems /\
  Forall onOnePage (fst (paginate None scenarioItems)).
Proof.
  assert (Hnn : Forall nonneg scenarioItems).
  { repeat constructor; vm_compute; congruence. }
  split; [exact Hnn|].
  destruct (no_straddle_under_padded_page None scenarioItems Hnn)
    as (Hitems & _ & HF).
  split; [exact Hitems|].
  apply Forall_forall. intros v Hin.
  apply (proj2 (proj1 (Forall_forall _ _) HF v Hin)).
  simpl in Hin.
  destruct Hin as [<-|[<-|[<-|[]]]];
    [left; reflexivity | right; reflexivity | right; reflexivity].
Defined.

(** C6 (as amended): with usableHeight = 1063 and blocks [300, 900, 200],
    block 1 is left alone, block 2 is pushed by 803 (content 1103 to 2003),
    and block 3, which would run from 2003 to 2203 across the cut at 2126, is
    pushed by 163 (content 2166 to 2366); the final cursor is 2366. *)
Theorem scenario_run :
  exists v1 v2 v3 yEnd,
    paginate None scenarioItems = ([v1; v2; v3], yEnd) /\
    (styleMarginTop v1 = None /\ cursorAfter v1 == 300) /\
    ((exists m, styleMarginTop v2 = Some m /\ m == 803) /\
     adjustedStartY v2 == 1103 /\ adjustedEndY v2 == 2003) /\
    (cursorBefore v3 == 2003 /\
     pageIndex (cursorBefore v3) = 1%Z /\
     pageIndex (cursorBefore v3 + totalItemHeight (item v3)) = 2%Z /\
     (exists m, styleMarginTop v3 = Some m /\ m == 163) /\
     adjustedStartY v3 == 2166 /\ adjustedEndY v3 == 2366) /\
    yEnd == 2366.
Proof.
  do 4 eexists. split; [reflexivity|].
  repeat split; try (eexists; split; [reflexivity|]); vm_compute; reflexivity.
Qed.

(** C6 (as stated) fails: block 3 is pushed and the final cursor is not 2203. *)
Lemma scenario_counterexample :
  exists v3,
    nth_error (fst (paginate None scenarioItems)) 2 = Some v3 /\
    styleMarginTop v3 <> None /\
    ~ adjustedEndY v3 == 2203 /\
    ~ snd (paginate None scenarioItems) == 2203.
Proof.
  eexists. split; [reflexivity|].
  repeat split; vm_compute; congruence.
Qed.

Lemma visit_step (y : Q) (el : Item) :
  nonneg el ->
  y <= cursorAfter (visit y el) /\
  y + offsetHeight el <= cursorAfter (visit y el) /\
  y + totalItemHeight el <= cursorAfter (visit y el).
Proof.
  intros (Hh & Ht & Hb).
  pose proof (remainingSpaceOnPage_pos y) as Hr.
  unfold visit, pushDownAmount, totalItemHeight.
  destruct (crosses y el); cbn [cursorAfter]; repeat split; lra.
Qed.

Lemma StronglySorted_Qle_cons (y y' : Q) (l : list Q) :
  y <= y' -> StronglySorted Qle (y' :: l) -> StronglySorted Qle (y :: y' :: l).
Proof.
  intros Hle Hs. constructor; [exact Hs|].
  inversion Hs as [|? ? _ Hall]; subst.
  constructor; [exact Hle|].
  eapply Forall_impl; [|exact Hall].
  intros z Hz. cbv beta in Hz. lra.
Qed.

Lemma forEach_sorted (items : list Item) (y : Q) :
  Forall nonneg items ->
  StronglySorted Qle (cursorTrace y (fst (forEach items y))).
Proof.
  intros Hnn; revert y.
  induction Hnn as [|el rest Hel _ IH]; intros y; simpl.
  - repeat constructor.
  - specialize (IH (cursorAfter (visit y el))).
    destruct (forEach rest (cursorAfter (visit y el))) as [vs y'].
    unfold cursorTrace in *; simpl in *.
    apply StronglySorted_Qle_cons; [|exact IH].
    now apply visit_step.
Qed.

Lemma visit_strict_iff (y : Q) (el : Item) :
  nonneg el ->
  (y < cursorAfter (visit y el) <->
   0 < totalItemHeight el \/ styleMarginTop (visit y el) <> None).
Proof.
  intros (Hh & Ht & Hb).
  pose proof (remainingSpaceOnPage_pos y) as Hr.
  unfold visit, pushDownAmount, totalItemHeight.
  destruct (crosses y el); cbn [cursorAfter styleMarginTop].
  - split; [intros _; right; discriminate | intros _; lra].
  - split; [intros H; left; lra | intros [H|H]; [lra | now elim H]].
Qed.

(** C7 (as amended): the pass visits every block, in order; with non-negative
    heights and margins the cursor never decreases (the cursor values of a
    run are sorted), each block moves it up by at least its own rendered
    height, and the move is strict exactly for the blocks that have a
    positive total height or are pushed. *)
Theorem cursor_monotone (header : option Q) (items : list Item) :
  Forall nonneg items ->
  map item (fst (paginate header items)) = items /\
  StronglySorted Qle
    (cursorTrace (match header with Some h => 0 + h | None => 0 end)
                 (fst (paginate header items))) /\
  chained (match header with Some h => 0 + h | None => 0 end)
          (fst (paginate header items)) (snd (paginate header items)) /\
  Forall (fun v =>
            cursorBefore v <= cursorAfter v /\
            cursorBefore v + offsetHeight (item v) <= cursorAfter v /\
            (cursorBefore v < cursorAfter v <->
             0 < totalItemHeight (item v) \/ styleMarginTop v <> None))
         (fst (paginate header items)).
Proof.
  intros Hnn. unfold paginate.
  split; [apply forEach_items|].
  split; [now apply forEach_sorted|].
  split; [apply forEach_chained|].
  apply Forall_on_items with (P := nonneg).
  - rewrite forEach_items. exact Hnn.
  - apply forEach_Forall. intros y el Hel.
    rewrite visit_item in *. rewrite visit_cursorBefore.
    destruct (visit_step y el Hel) as (H1 & H2 & _).
    repeat split; try assumption; now apply visit_strict_iff.
Qed.

Lemma cursor_monotone_witness :
  Forall nonneg scenarioItems /\
  map item (fst (paginate None scenarioItems)) = scenarioItems /\
  StronglySorted Qle (cursorTrace 0 (fst (paginate None scenarioItems))) /\
  Forall (fun v => cursorBefore v < cursorAfter v)
         (fst (paginate None scenarioItems)).
Proof.
  assert (Hnn : Forall nonneg scenarioItems).
  { repeat constructor; vm_compute; congruence. }
  split; [exact Hnn|].
  destruct (cursor_monotone None scenarioItems Hnn) as (Hitems & Hs & _ & HF).
  split; [exact Hitems|]. split; [exact Hs|].
  apply Forall_forall. intros v Hin.
  pose proof (proj1 (Forall_forall _ _) HF v Hin) as (_ & _ & Hlt).
  apply (proj2 Hlt). left.
  simpl in Hin.
  destruct Hin as [<-|[<-|[<-|[]]]]; reflexivity.
Defined.

(** C7 (as stated) fails: a block of height 0 without margins that fits has
    non-negative height and margins and leaves the cursor where it was, so
    the cursor is not strictly increased by it. *)
Lemma cursor_monotone_counterexample :
  exists v,
    In v (fst (paginate None [mkItem 300 0 0; mkItem 0 0 0])) /\
    nonneg (item v) /\
    cursorBefore v == 300 /\ cursorAfter v == 300 /\
    ~ cursorBefore v < cursorAfter v.
Proof.
  exists (visit (0 + (300 + 0 + 0)) (mkItem 0 0 0)).
  split; [right; left; reflexivity|].
  repeat split; try (vm_compute; congruence).
Qed.

End TetrisFacts.

(** ** The slicer *)

Section SlicerFacts.

Import Slicer.

Lemma Qceiling_unique (n : Z) (x : Q) :
  inject_Z n - 1 < x -> x <= inject_Z n -> Qceiling x = n.
Proof.
  intros Hlo Hhi.
  apply Qceiling_resp_le in Hhi. rewrite Qceiling_Z in Hhi.
  pose proof (Qle_ceiling x) as Hc.
  assert (Hlt : inject_Z (n + -1) < inject_Z (Qceiling x)).
  { rewrite inject_Z_plus. change (inject_Z (-1)) with (- (1)). lra. }
  rewrite <- Zlt_Qlt in Hlt. lia.
Qed.

Lemma Qceiling_pred (x : Q) : Qceiling (x - 1) = (Qceiling x - 1)%Z.
Proof.
  pose proof (Qle_ceiling x) as Hhi.
  pose proof (Qceiling_lt x) as Hlo.
  apply Qceiling_unique;
    replace (Qceiling x - 1)%Z with (Qceiling x + -1)%Z in * by lia;
    rewrite inject_Z_plus in *; change (inject_Z (-1)) with (- (1)) in *; lra.
Qed.

(** Pages still to come when [heightLeft] is left over. *)
Lemma pages_left_pos (heightLeft : Q) :
  0 < heightLeft ->
  Z.to_nat (Qceiling (heightLeft / pdfHeight)) =
  S (Z.to_nat (Qceiling ((heightLeft - pdfHeight) / pdfHeight))).
Proof.
  intros Hpos.
  assert (Hq : (heightLeft - pdfHeight) / pdfHeight == heightLeft / pdfHeight - 1).
  { unfold pdfHeight. field. }
  rewrite Hq, Qceiling_pred.
  assert (H0 : 0 < heightLeft / pdfHeight).
  { apply Qlt_shift_div_l; [reflexivity | lra]. }
  pose proof (Qle_ceiling (heightLeft / pdfHeight)) as Hc.
  assert (H1 : inject_Z 0 < inject_Z (Qceiling (heightLeft / pdfHeight))).
  { change (inject_Z 0) with 0. lra. }
  rewrite <- Zlt_Qlt in H1. lia.
Qed.

Lemma pages_left_nonpos (heightLeft : Q) :
  heightLeft <= 0 -> Z.to_nat (Qceiling (heightLeft / pdfHeight)) = 0%nat.
Proof.
  intros Hle.
  assert (H0 : heightLeft / pdfHeight <= inject_Z 0).
  { apply Qle_shift_div_r; [reflexivity | change (inject_Z 0) with 0; lra]. }
  apply Qceiling_resp_le in H0. rewrite Qceiling_Z in H0. lia.
Qed.

Lemma pages_addImage_addPage (y : Q) (pdf : Pdf) :
  pages (addImage y (addPage pdf)) = pages pdf ++ [[y]].
Proof. reflexivity. Qed.

(** What the loop appends: one page per [pdfHeight] still left, the [j]-th of
    them with the image moved up by what had been shown before it. *)
Lemma addPages_pages (imgH heightLeft : Q) (pdf : Pdf) :
  exists extra,
    pages (addPages imgH heightLeft pdf) = pages pdf ++ extra /\
    length extra = Z.to_nat (Qceiling (heightLeft / pdfHeight)) /\
    forall j pg, nth_error extra j = Some pg ->
      exists y, pg = [y] /\
        y == - (imgH - heightLeft + inject_Z (Z.of_nat j) * pdfHeight).
Proof.
  funelim (addPages imgH heightLeft pdf).
  - clear Heq Heqcall.
    destruct H as (extra & Hpages & Hlen & Hnth).
    exists ([- (imgH - heightLeft)] :: extra).
    split; [|split].
    + rewrite Hpages, pages_addImage_addPage, <- app_assoc. reflexivity.
    + simpl. rewrite Hlen. symmetry. now apply pages_left_pos.
    + intros [|j] pg Hj; simpl in Hj.
      * injection Hj as <-. eexists; split; [reflexivity|].
        change (inject_Z (Z.of_nat 0)) with 0. ring.
      * destruct (Hnth j pg Hj) as (y & -> & Hy).
        exists y; split; [reflexivity|].
        rewrite Hy, Nat2Z.inj_succ. unfold Z.succ. rewrite inject_Z_plus.
        change (inject_Z 1) with 1. ring.
  - exists []. split; [now rewrite app_nil_r|].
    split; [symmetry; now apply pages_left_nonpos|].
    intros [|j] pg Hj; discriminate Hj.
Qed.

(** C4: for a positive scaled image height H the slicer writes exactly
    ceil(H / pdfHeight) pages, and page k (from zero) carries the full image
    once, moved up by k * pdfHeight. *)
Theorem slicer_pages (canvasWidth canvasHeight : Q) :
  0 < imgHeight canvasWidth canvasHeight ->
  Z.of_nat (length (pages (slice canvasWidth canvasHeight))) =
    Qceiling (imgHeight canvasWidth canvasHeight / pdfHeight) /\
  forall k pg, nth_error (pages (slice canvasWidth canvasHeight)) k = Some pg ->
    exists y, pg = [y] /\ y == - (inject_Z (Z.of_nat k) * pdfHeight).
Proof.
  intros Hpos. unfold slice.
  set (H := imgHeight canvasWidth canvasHeight) in *.
  destruct (addPages_pages H (H - pdfHeight) (addImage 0 newPdf))
    as (extra & Hpages & Hlen & Hnth).
  rewrite Hpages. change (pages (addImage 0 newPdf)) with [[0]].
  split.
  - cbn [app List.length]. rewrite Hlen, <- pages_left_pos by exact Hpos.
    rewrite Z2Nat.id; [reflexivity|].
    assert (H0 : inject_Z 0 <= H / pdfHeight).
    { apply Qle_shift_div_l; [reflexivity | change (inject_Z 0) with 0; lra]. }
    apply Qceiling_resp_le in H0. now rewrite Qceiling_Z in H0.
  - intros [|j] pg Hk; simpl in Hk.
    + injection Hk as <-. eexists; split; [reflexivity|].
      change (inject_Z (Z.of_nat 0)) with 0. ring.
    + destruct (Hnth j pg Hk) as (y & -> & Hy).
      exists y; split; [reflexivity|].
      rewrite Hy, Nat2Z.inj_succ. unfold Z.succ. rewrite inject_Z_plus.
      change (inject_Z 1) with 1. ring.
Qed.

(** A bitmap of scaled height 1500 gives six pages, the last at -1485. *)
Lemma slicer_pages_witness :
  0 < imgHeight 210 1500 /\
  Z.of_nat (length (pages (slice 210 1500))) = 6%Z /\
  exists y, nth_error (pages (slice 210 1500)) 5 = Some [y] /\ y == - (1485).
Proof.
  assert (Hpos : 0 < imgHeight 210 1500) by reflexivity.
  destruct (slicer_pages 210 1500 Hpos) as [Hlen Hnth].
  split; [exact Hpos|]. split; [exact Hlen|].
  destruct (Hnth 5%nat _ eq_refl) as (y & Hpg & Hy).
  exists y. split; [rewrite <- Hpg; reflexivity | exact Hy].
Defined.

Lemma imgHeight_zero (canvasWidth : Q) : imgHeight canvasWidth 0 == 0.
Proof. unfold imgHeight, Qdiv. ring. Qed.

(** C9: whatever the bitmap, the document starts with the page that carries
    the image at offset 0, so it has at least one page; a bitmap of height
    zero gives exactly that one page. *)
Theorem slicer_first_page (canvasWidth canvasHeight : Q) :
  (exists rest, pages (slice canvasWidth canvasHeight) = [0] :: rest) /\
  (1 <= length (pages (slice canvasWidth canvasHeight)))%nat /\
  pages (slice canvasWidth 0) = [[0]].
Proof.
  assert (Hfirst : forall cw ch, exists rest, pages (slice cw ch) = [0] :: rest).
  { intros cw ch. unfold slice.
    destruct (addPages_pages (imgHeight cw ch) (imgHeight cw ch - pdfHeight)
                (addImage 0 newPdf)) as (extra & Hpages & _).
    exists extra. exact Hpages. }
  split; [apply Hfirst|]. split.
  - destruct (Hfirst canvasWidth canvasHeight) as [rest ->]. simpl. lia.
  - unfold slice. rewrite addPages_equation_1.
    destruct (Qlt_le_dec 0 (imgHeight canvasWidth 0 - pdfHeight)) as [Hlt|Hle].
    + exfalso. pose proof (imgHeight_zero canvasWidth) as Hz.
      unfold pdfHeight in Hlt. lra.
    + reflexivity.
Qed.

End SlicerFacts.

(** ** The file name token *)

Section FileNameFacts.

Import Js FileName.

Lemma safeName_map (name : jsstring) :
  safeName name =
  map (fun c => if isLowerAlnum c then c
                else if isUpper c then (c + 32)%N else underscore) name.
Proof.
  unfold safeName, toLowerCase, replaceNonAlnum. rewrite map_map.
  apply map_ext. intros c.
  unfold isAlnumIgnoreCase, isLowerAlnum, isLower, isUpper, isDigit, underscore.
  destruct (97 <=? c)%N eqn:E1, (c <=? 122)%N eqn:E2,
           (65 <=? c)%N eqn:E3, (c <=? 90)%N eqn:E4,
           (48 <=? c)%N eqn:E5, (c <=? 57)%N eqn:E6;
    cbn [andb orb]; try rewrite E3; try rewrite E4; cbn [andb]; try reflexivity;
    rewrite ?N.leb_le, ?N.leb_gt in *; lia.
Qed.

Lemma lowered_isLower (c : N) : isUpper c = true -> isLower (c + 32) = true.
Proof.
  unfold isUpper, isLower. rewrite !andb_true_iff, !N.leb_le. lia.
Qed.

(** C5 (as amended): the token has one code unit per code unit of the name;
    an ASCII digit or lowercase letter is kept, an ASCII uppercase letter is
    lowercased, and every other code unit is replaced by an underscore (not
    removed), so the token holds only lowercase ASCII letters, digits and
    underscores. *)
Theorem safeName_token (name : jsstring) :
  List.length (safeName name) = List.length name /\
  Forall (fun c => isLowerAlnum c = true \/ c = underscore) (safeName name) /\
  forall i c, nth_error name i = Some c ->
    nth_error (safeName name) i =
    Some (if isLowerAlnum c then c
          else if isUpper c then (c + 32)%N else underscore).
Proof.
  rewrite safeName_map. split; [apply length_map|]. split.
  - apply Forall_map, Forall_forall. intros c _.
    destruct (isLowerAlnum c) eqn:E; [left; exact E|].
    destruct (isUpper c) eqn:Eu; [left | right; reflexivity].
    unfold isLowerAlnum. now rewrite lowered_isLower.
  - intros i c Hi. now rewrite nth_error_map, Hi.
Qed.

(** C5 (as stated) fails: the token of "João D'Ávila Jr." is
    "jo_o_d__vila_jr_", which holds underscores and is as long as the name. *)
Lemma safeName_counterexample :
  safeName joao = ofAscii "jo_o_d__vila_jr_" /\
  In underscore (safeName joao) /\
  isLowerAlnum underscore = false /\
  forallb isLowerAlnum (safeName joao) = false.
Proof.
  repeat split; try reflexivity. vm_compute. tauto.
Qed.

End FileNameFacts.

(** ** The markdown normalizer *)

Section MarkdownFacts.

Import Js Markdown.

(** C10 fails on the code: in "a\nb\nc" the first match takes "a\nb", the
    search resumes at the second line break with no character before it left
    to match, and that break survives the first pass; the second pass removes
    it. *)
Theorem normalizeMarkdown_second_pass :
  joinSingleBreaks threeLines = [97; SP; 98; LF; 99]%N /\
  normalizeMarkdown threeLines = [97; SP; 98; LF; 99]%N /\
  normalizeMarkdown (normalizeMarkdown threeLines) = [97; SP; 98; SP; 99]%N /\
  normalizeMarkdown (normalizeMarkdown threeLines) <> normalizeMarkdown threeLines.
Proof.
  repeat split; try reflexivity. vm_compute. discriminate.
Qed.

End MarkdownFacts.

(** ** The export operation *)

Section PipelineFacts.

Import Js Pipeline.

(** Whatever the body and the handler do, the [finally] block has the last
    word on the flag. *)
Lemma finally_resets_flag (body : M unit) (handler : Stage -> M unit) (w : World) :
  isGeneratingPdf
    (snd (tryCatchFinally body handler (setIsGeneratingPdf false) w)) = false.
Proof.
  unfold tryCatchFinally.
  destruct (body w) as [c w1].
  destruct c as [a|s|]; [reflexivity | | reflexivity].
  destruct (handler s w1) as [c1 w2]. reflexivity.
Qed.

(** C8: once an export has started, the flag is false when it finishes,
    whatever the environment answers and whichever stage raises, at both call
    sites. *)
Theorem flag_reset_after_export (env : Env) (name : jsstring) (w : World) :
  isGeneratingPdf (after (handleDownloadReportPDF env (Some name)) w) = false /\
  isGeneratingPdf (after (handleDownloadPDF env name) w) = false.
Proof.
  unfold after, handleDownloadReportPDF, handleDownloadPDF. split.
  - unfold bind at 1. cbn [setIsGeneratingPdf]. apply finally_resets_flag.
  - unfold bind at 1. cbn [setIsGeneratingPdf].
    destruct (element env) as [report|]; [apply finally_resets_flag | reflexivity].
Qed.

Lemma remove_appended (n : Node) (l : list Node) :
  ~ In n l -> remove Nat.eq_dec n (l ++ [n]) = l.
Proof.
  intros Hn. rewrite remove_app, notin_remove by exact Hn.
  cbn. destruct (Nat.eq_dec n n) as [_|Hne]; [apply app_nil_r | now elim Hne].
Qed.

(** Once the capture has answered, the container is gone again: on the happy
    path and when slicing or saving raises, the body has its former children
    (the new node being fresh). *)
Lemma container_removed_after_capture
      (report : Report) (stage : option Stage) (cw ch : Q)
      (date name : jsstring) (w : World) :
  ~ In (nextNode w) (bodyChildren w) ->
  stage = None \/ stage = Some Slicing \/ stage = Some Saving ->
  bodyChildren
    (after (handleDownloadReportPDF
              (mkEnv (Some report) stage cw ch date) (Some name)) w)
  = bodyChildren w /\
  bodyChildren
    (after (handleDownloadPDF (mkEnv (Some report) stage cw ch date) name) w)
  = bodyChildren w.
Proof.
  intros Hfresh [->|[->| ->]];
    split; cbn -[Slicer.slice Tetris.paginate FileName.reportFileName
                 FileName.consolidatedFileName remove];
    now apply remove_appended.
Qed.

(** C2 fails on the code: when the capture raises, the container appended to
    the document body is still one of its children when the export returns,
    at both call sites (the [removeChild] call sits in the [try] block after
    the capture, not in the [finally] block). *)
Theorem container_left_attached_on_capture_failure
        (report : Report) (cw ch : Q) (date name : jsstring) (w : World) :
  In (nextNode w)
     (bodyChildren
        (after (handleDownloadReportPDF
                  (mkEnv (Some report) (Some Capture) cw ch date) (Some name)) w)) /\
  In (nextNode w)
     (bodyChildren
        (after (handleDownloadPDF
                  (mkEnv (Some report) (Some Capture) cw ch date) name) w)).
Proof.
  split; cbn; apply in_or_app; right; left; reflexivity.
Qed.

End PipelineFacts.

(** ** Page-break insertion: when a block is pushed, and by how much *)

Section TetrisPushes.

Import Tetris.

Local Notation "'U'" := PAGE_CONTENT_HEIGHT.

(** A block of non-negative total height is left unmutated exactly when it
    ends strictly before the cut line of the page the cursor is on; a block
    that ends exactly on the line is pushed like one that crosses it. *)
Theorem unpushed_iff_ends_before_cut (y : Q) (el : Item) :
  0 <= totalItemHeight el ->
  (styleMarginTop (visit y el) = None <->
   y + totalItemHeight el < inject_Z (pageIndex y + 1) * U).
Proof.
  intros Htot.
  destruct (pageIndex_bounds y) as [Hlo Hhi].
  destruct (pageIndex_bounds (y + totalItemHeight el)) as [Hlo' Hhi'].
  unfold visit, crosses.
  destruct (Z.eqb_spec (pageIndex y) (pageIndex (y + totalItemHeight el)))
    as [Heq|Hne]; cbn [negb styleMarginTop].
  - split; [intros _ | reflexivity]. rewrite Heq. exact Hhi'.
  - split; [discriminate|]. intros Hlt. exfalso. apply Hne. symmetry.
    apply pageIndex_unique; [lra | exact Hlt].
Qed.

(** A block of height 1063 met at the top of a page ends exactly on the cut
    and is pushed. *)
Lemma unpushed_iff_ends_before_cut_witness :
  0 <= totalItemHeight (mkItem 1063 0 0) /\
  styleMarginTop (visit 0 (mkItem 1063 0 0)) <> None /\
  styleMarginTop (visit 0 (mkItem 1062 0 0)) = None.
Proof.
  assert (H1 : 0 <= totalItemHeight (mkItem 1063 0 0)) by (vm_compute; congruence).
  assert (H2 : 0 <= totalItemHeight (mkItem 1062 0 0)) by (vm_compute; congruence).
  split; [exact H1|]. split.
  - intros Hnone.
    apply (proj1 (unpushed_iff_ends_before_cut 0 (mkItem 1063 0 0) H1)) in Hnone.
    vm_compute in Hnone. discriminate Hnone.
  - apply (proj2 (unpushed_iff_ends_before_cut 0 (mkItem 1062 0 0) H2)).
    reflexivity.
Defined.

(** Every margin the pass writes is the measured margin plus more than 40 and
    at most one usable page height plus 40. *)
Theorem push_amount_bounds (header : option Q) (items : list Item) :
  Forall (fun v =>
            match styleMarginTop v with
            | None => True
            | Some m => marginTop (item v) + 40 < m /\
                        m <= marginTop (item v) + U + 40
            end)
         (fst (paginate header items)).
Proof.
  unfold paginate. apply forEach_Forall. intros y el.
  unfold visit, pushDownAmount, remainingSpaceOnPage.
  destruct (crosses y el); cbn [styleMarginTop item]; [|exact I].
  destruct (pageIndex_bounds y) as [Hlo Hhi].
  pose proof (inject_Z_succ_mult (pageIndex y) U) as Hk.
  split; lra.
Qed.

(** A pushed block starts exactly 40 below the top of the page after the one
    the cursor was on. *)
Theorem pushed_block_lands_on_next_page (header : option Q) (items : list Item) :
  Forall (fun v =>
            match styleMarginTop v with
            | None => True
            | Some _ =>
                adjustedStartY v ==
                  inject_Z (pageIndex (cursorBefore v) + 1) * U + 40 /\
                pageIndex (adjustedStartY v) = (pageIndex (cursorBefore v) + 1)%Z
            end)
         (fst (paginate header items)).
Proof.
  unfold paginate. apply forEach_Forall. intros y el.
  unfold visit, adjustedStartY, pushDownAmount, remainingSpaceOnPage.
  destruct (crosses y el); cbn [styleMarginTop item cursorAfter cursorBefore];
    [|exact I].
  pose proof usable_height_pos as HU.
  assert (H40 : 40 < U) by reflexivity.
  pose proof (inject_Z_succ_mult (pageIndex y + 1) U) as Hk.
  set (a := inject_Z (pageIndex y + 1) * U) in *.
  split; [ring|].
  apply pageIndex_unique; fold a; lra.
Qed.

(** Sum of the total heights of the visited blocks. *)
Lemma forEach_final_bounds (items : list Item) (y : Q) :
  y + fold_right (fun el acc => totalItemHeight el + acc) 0 items
    <= snd (forEach items y) /\
  snd (forEach items y)
    <= y + fold_right (fun el acc => totalItemHeight el + acc) 0 items
       + inject_Z (Z.of_nat (List.length items)) * (U + 40).
Proof.
  revert y; induction items as [|el rest IH]; intros y.
  - cbn. change (inject_Z 0) with 0. split; lra.
  - cbn [forEach fold_right List.length].
    specialize (IH (cursorAfter (visit y el))).
    destruct (forEach rest (cursorAfter (visit y el))) as [vs y'].
    cbn [snd] in *.
    rewrite Nat2Z.inj_succ. unfold Z.succ. rewrite inject_Z_plus.
    change (inject_Z 1) with 1.
    set (n := inject_Z (Z.of_nat (List.length rest))) in *.
    set (s := fold_right (fun el acc => totalItemHeight el + acc) 0 rest) in *.
    assert (Hv : y + totalItemHeight el <= cursorAfter (visit y el) /\
                 cursorAfter (visit y el) <= y + totalItemHeight el + (U + 40)).
    { unfold visit, pushDownAmount, remainingSpaceOnPage.
      destruct (pageIndex_bounds y) as [Hlo Hhi].
      pose proof (inject_Z_succ_mult (pageIndex y) U) as Hk.
      pose proof usable_height_pos as HU.
      destruct (crosses y el); cbn [cursorAfter]; split; lra. }
    destruct Hv as [Hv1 Hv2]. destruct IH as [IH1 IH2].
    split; [lra|].
    assert (Hexp : (n + 1) * (U + 40) == n * (U + 40) + (U + 40)) by ring.
    rewrite Hexp. lra.
Qed.

(** The paginated height is at least the header plus the blocks' total
    heights and exceeds it by at most one usable page plus 40 per block. *)
Theorem paginated_height_bounds (header : option Q) (items : list Item) :
  (match header with Some h => 0 + h | None => 0 end)
    + fold_right (fun el acc => totalItemHeight el + acc) 0 items
    <= snd (paginate header items) /\
  snd (paginate header items)
    <= (match header with Some h => 0 + h | None => 0 end)
       + fold_right (fun el acc => totalItemHeight el + acc) 0 items
       + inject_Z (Z.of_nat (List.length items)) * (U + 40).
Proof. unfold paginate. apply forEach_final_bounds. Qed.

End TetrisPushes.

(** ** The slicer: short bitmaps and the capture scale *)

Section SlicerMore.

Import Slicer.

(** A bitmap whose scaled height is at most one page height gives exactly one
    page, the image at offset 0: no blank second page when the image fills
    the page exactly. *)
Theorem slicer_single_page (canvasWidth canvasHeight : Q) :
  imgHeight canvasWidth canvasHeight <= pdfHeight ->
  pages (slice canvasWidth canvasHeight) = [[0]].
Proof.
  intros Hle. unfold slice. rewrite addPages_equation_1.
  destruct (Qlt_le_dec 0 (imgHeight canvasWidth canvasHeight - pdfHeight))
    as [Hlt|Hge]; [exfalso; lra | reflexivity].
Qed.

Lemma slicer_single_page_witness :
  imgHeight 210 297 <= pdfHeight /\ pages (slice 210 297) = [[0]].
Proof.
  assert (H : imgHeight 210 297 <= pdfHeight) by (vm_compute; congruence).
  split; [exact H | exact (slicer_single_page 210 297 H)].
Defined.

Lemma slice_length (canvasWidth canvasHeight : Q) :
  List.length (pages (slice canvasWidth canvasHeight)) =
  S (Z.to_nat (Qceiling ((imgHeight canvasWidth canvasHeight - pdfHeight)
                         / pdfHeight))).
Proof.
  unfold slice.
  destruct (addPages_pages (imgHeight canvasWidth canvasHeight)
              (imgHeight canvasWidth canvasHeight - pdfHeight)
              (addImage 0 newPdf)) as (extra & Hpages & Hlen & _).
  rewrite Hpages. change (pages (addImage 0 newPdf)) with [[0]].
  cbn [app List.length]. now rewrite Hlen.
Qed.

(** The number of pages does not depend on the scale of the capture: a canvas
    of s times the width and s times the height is cut into as many pages. *)
Theorem slicer_scale_invariant (s canvasWidth canvasHeight : Q) :
  0 < s -> 0 < canvasWidth ->
  List.length (pages (slice (s * canvasWidth) (s * canvasHeight))) =
  List.length (pages (slice canvasWidth canvasHeight)).
Proof.
  intros Hs Hw. rewrite !slice_length.
  assert (Heq : imgHeight (s * canvasWidth) (s * canvasHeight)
                == imgHeight canvasWidth canvasHeight).
  { unfold imgHeight. field. split; lra. }
  now rewrite Heq.
Qed.

Lemma slicer_scale_invariant_witness :
  0 < 2 /\ 0 < 794 /\
  List.length (pages (slice (2 * 794) (2 * 3000))) =
  List.length (pages (slice 794 3000)).
Proof.
  assert (H2 : 0 < 2) by reflexivity.
  assert (Hw : 0 < 794) by reflexivity.
  split; [exact H2|]. split; [exact Hw|].
  exact (slicer_scale_invariant 2 794 3000 H2 Hw).
Defined.

End SlicerMore.

(** ** The file name: a second pass and the characters of the name *)

Section FileNameMore.

Import Js FileName FileNameShape.

Lemma safeName_unit_fixed (c : N) :
  let f := fun c => if isLowerAlnum c then c
                    else if isUpper c then (c + 32)%N else underscore in
  f (f c) = f c.
Proof.
  cbv beta zeta.
  destruct (isLowerAlnum c) eqn:E; [now rewrite E|].
  destruct (isUpper c) eqn:Eu.
  - assert (Hl : isLowerAlnum (c + 32) = true).
    { unfold isLowerAlnum. now rewrite lowered_isLower. }
    now rewrite Hl.
  - reflexivity.
Qed.

(** Sanitizing a token again leaves it as it is. *)
Theorem safeName_idempotent (name : jsstring) :
  safeName (safeName name) = safeName name.
Proof.
  rewrite !safeName_map, map_map. apply map_ext. intros c.
  apply safeName_unit_fixed.
Qed.

(** Whatever the student's name, the file name of the report is
    "Relatorio_", one unit per unit of the name, and ".pdf", and holds nothing
    but ASCII letters, digits, underscores and the dot of the extension: no
    separator, space or accent reaches the file system. *)
Theorem reportFileName_safe (name : jsstring) :
  Forall fileNameUnit (reportFileName name) /\
  List.length (reportFileName name) = (List.length name + 14)%nat /\
  firstn 10 (reportFileName name) = ofAscii "Relatorio_" /\
  skipn (List.length name + 10) (reportFileName name) = ofAscii ".pdf".
Proof.
  unfold reportFileName. split; [|split; [|split]].
  - apply Forall_app. split; [|apply Forall_app; split].
    + cbn. repeat (constructor;
                   [first [left; reflexivity | right; left; reflexivity]|]).
      constructor.
    + rewrite safeName_map. apply Forall_map, Forall_forall. intros c _.
      unfold fileNameUnit, isAlnumIgnoreCase, isLowerAlnum.
      destruct (isLower c) eqn:El; cbn [orb].
      { left. now rewrite El. }
      destruct (isDigit c) eqn:Ed; cbn [orb].
      * left. rewrite Ed. now rewrite !orb_true_r.
      * destruct (isUpper c) eqn:Eu; [|right; left; reflexivity].
        left. now rewrite lowered_isLower.
    + cbn. constructor; [right; right; reflexivity|].
      repeat (constructor; [left; reflexivity|]). constructor.
  - rewrite !length_app. unfold safeName, toLowerCase, replaceNonAlnum.
    rewrite !length_map. cbn. lia.
  - reflexivity.
  - assert (Hlen : List.length (safeName name) = List.length name).
    { unfold safeName, toLowerCase, replaceNonAlnum. now rewrite !length_map. }
    rewrite app_assoc, skipn_app.
    rewrite length_app, Hlen.
    replace (List.length name + 10 - (List.length (ofAscii "Relatorio_") + List.length name))%nat
      with 0%nat by (cbn; lia).
    rewrite skipn_all2; [reflexivity|].
    rewrite length_app, Hlen. cbn. lia.
Qed.

End FileNameMore.

(** ** The export operation: what is saved and what is shown *)

Section PipelineOutcomes.

Import Js Pipeline.

(** When a stage raises, no file is saved: the error is logged once, one
    alert is shown and the flag is back to false.  (The consolidated view has
    no measurement stage.) *)
Theorem export_failure_saves_nothing
        (report : Report) (stage : Stage) (cw ch : Q) (date name : jsstring)
        (w : World) :
  (let w' := after (handleDownloadReportPDF
                      (mkEnv (Some report) (Some stage) cw ch date) (Some name)) w in
   savedFiles w' = savedFiles w /\
   consoleErrors w' = consoleErrors w ++ [stage] /\
   alerts w' = alerts w ++ ["Erro ao gerar PDF."%string] /\
   isGeneratingPdf w' = false) /\
  (stage <> Measurement ->
   let w' := after (handleDownloadPDF
                      (mkEnv (Some report) (Some stage) cw ch date) name) w in
   savedFiles w' = savedFiles w /\
   consoleErrors w' = consoleErrors w ++ [stage] /\
   alerts w' = alerts w ++ ["Erro ao gerar PDF. Tente novamente."%string] /\
   isGeneratingPdf w' = false).
Proof.
  split; [|intros Hstage]; destruct stage; try (now elim Hstage);
    cbn -[Slicer.slice Tetris.paginate FileName.reportFileName
          FileName.consolidatedFileName remove];
    repeat split.
Qed.

Lemma export_failure_saves_nothing_witness :
  Capture <> Measurement /\
  savedFiles
    (after (handleDownloadPDF (mkEnv (Some (mkReport None [])) (Some Capture)
                                     2400 6000 [] ) [])
           (mkWorld [] 0%nat false [] [] [])) = [].
Proof.
  assert (H : Capture <> Measurement) by discriminate.
  split; [exact H|].
  exact (proj1 (proj2 (export_failure_saves_nothing
                         (mkReport None []) Capture 2400 6000 [] []
                         (mkWorld [] 0%nat false [] [] [])) H)).
Defined.

(** When no stage raises, exactly one file is saved, under the derived name
    and holding the sliced pages; nothing is logged or alerted, the body has
    its former children and the flag is false. *)
Theorem export_success_saves_one_file
        (report : Report) (cw ch : Q) (date name : jsstring) (w : World) :
  ~ In (nextNode w) (bodyChildren w) ->
  after (handleDownloadReportPDF (mkEnv (Some report) None cw ch date) (Some name)) w
  = mkWorld (bodyChildren w) (S (nextNode w)) false (consoleErrors w) (alerts w)
            (savedFiles w ++ [(FileName.reportFileName name, Slicer.slice cw ch)]) /\
  after (handleDownloadPDF (mkEnv (Some report) None cw ch date) name) w
  = mkWorld (bodyChildren w) (S (nextNode w)) false (consoleErrors w) (alerts w)
            (savedFiles w ++
             [(FileName.consolidatedFileName name date, Slicer.slice cw ch)]).
Proof.
  intros Hfresh.
  split; cbn -[Slicer.slice Tetris.paginate FileName.reportFileName
               FileName.consolidatedFileName remove];
    now rewrite remove_appended.
Qed.

Lemma export_success_saves_one_file_witness :
  ~ In 0%nat (@nil Node) /\
  List.length
    (savedFiles
       (after (handleDownloadReportPDF (mkEnv (Some (mkReport None [])) None
                                              1588 2246 []) (Some FileName.joao))
              (mkWorld [] 0%nat false [] [] []))) = 1%nat.
Proof.
  assert (H : ~ In 0%nat (@nil Node)) by (intros []).
  split; [exact H|].
  rewrite (proj1 (export_success_saves_one_file (mkReport None []) 1588 2246 []
                    FileName.joao (mkWorld [] 0%nat false [] [] []) H)).
  reflexivity.
Defined.

(** Without a report element nothing is staged: no node is created or
    attached, nothing is logged, alerted or saved, and the flag is false; and
    without report data the handler of [src/App.tsx] leaves the world as it
    is. *)
Theorem export_without_element (raising : option Stage) (cw ch : Q)
        (date name : jsstring) (w : World) :
  after (handleDownloadReportPDF (mkEnv None raising cw ch date) (Some name)) w
  = mkWorld (bodyChildren w) (nextNode w) false (consoleErrors w) (alerts w)
            (savedFiles w) /\
  after (handleDownloadPDF (mkEnv None raising cw ch date) name) w
  = mkWorld (bodyChildren w) (nextNode w) false (consoleErrors w) (alerts w)
            (savedFiles w) /\
  forall env, after (handleDownloadReportPDF env None) w = w.
Proof. repeat split. Qed.

End PipelineOutcomes.

(** ** The markdown normalizer: what a pass keeps and what it leaves *)

Section MarkdownShape.

Import Js Markdown Runs.

Lemma runsBelow_repeat (c : N) (limit k j : nat) (rest : jsstring) :
  (k + j < limit)%nat ->
  runsBelow c limit k (repeat c j ++ rest) = runsBelow c limit (k + j) rest.
Proof.
  revert k; induction j as [|j IH]; intros k Hlt; cbn [repeat app].
  - now rewrite Nat.add_0_r.
  - cbn [runsBelow]. rewrite N.eqb_refl.
    replace (S k <? limit)%nat with true by (symmetry; apply Nat.ltb_lt; lia).
    cbn [andb]. rewrite IH by lia. f_equal. lia.
Qed.

Lemma runsBelow_full_run (c : N) (limit k : nat) (rest : jsstring) :
  (0 < limit)%nat ->
  runsBelow c limit k (repeat c limit ++ rest) = false.
Proof.
  intros Hpos.
  assert (H : forall j k', (limit <= k' + j)%nat -> (0 < j)%nat ->
                           runsBelow c limit k' (repeat c j ++ rest) = false).
  { induction j as [|j IH]; intros k' Hle Hj; [lia|].
    cbn [repeat app runsBelow]. rewrite N.eqb_refl.
    destruct (S k' <? limit)%nat eqn:E; [|reflexivity]. cbn [andb].
    apply Nat.ltb_lt in E. apply IH; lia. }
  apply H; lia.
Qed.

(** A string that passes the check holds no full run. *)
Lemma runsBelow_no_factor (c : N) (limit : nat) (s l1 l2 : jsstring) :
  (0 < limit)%nat ->
  runsBelow c limit 0 s = true -> s <> l1 ++ repeat c limit ++ l2.
Proof.
  intros Hpos Hok ->.
  assert (H : forall k, runsBelow c limit k (l1 ++ repeat c limit ++ l2) = false).
  { clear Hok. induction l1 as [|x l1 IH]; intros k; cbn [app].
    - now apply runsBelow_full_run.
    - cbn [runsBelow]. destruct (x =? c)%N; [|apply IH].
      rewrite IH. apply andb_false_r. }
  rewrite H in Hok. discriminate Hok.
Qed.

Lemma flushRun_repeat (c : N) (atLeast m run : nat) :
  (m < atLeast)%nat ->
  exists j, (j < atLeast)%nat /\ flushRun c atLeast (repeat c m) run = repeat c j.
Proof.
  intros Hm. unfold flushRun.
  destruct (atLeast <=? run)%nat eqn:E.
  - exists m. now split.
  - exists run. apply Nat.leb_gt in E. now split.
Qed.

(** After [.replace(/c{n,}/g, shorter run)] every run of [c] is shorter than
    [n]. *)
Lemma collapseRuns_runsBelow (c : N) (atLeast m : nat) (run : nat) (s : jsstring) :
  (m < atLeast)%nat ->
  runsBelow c atLeast 0 (collapseRuns c atLeast (repeat c m) run s) = true.
Proof.
  intros Hm. revert run; induction s as [|x t IH]; intros run; cbn [collapseRuns].
  - destruct (flushRun_repeat c atLeast m run Hm) as (j & Hj & ->).
    rewrite <- (app_nil_r (repeat c j)), runsBelow_repeat by lia. reflexivity.
  - destruct (x =? c)%N eqn:Ex; [apply IH|].
    destruct (flushRun_repeat c atLeast m run Hm) as (j & Hj & ->).
    rewrite runsBelow_repeat by lia. cbn [runsBelow]. rewrite Ex. apply IH.
Qed.

(** Collapsing runs of [c] leaves the runs of another unit [d] as they are. *)
Lemma collapseRuns_keeps_other_runs (c d : N) (atLeast m limit : nat) :
  c <> d -> (0 < m)%nat -> (0 < atLeast)%nat ->
  forall (s : jsstring) (run k : nat),
    runsBelow d limit k (repeat c run ++ s) = true ->
    runsBelow d limit k (collapseRuns c atLeast (repeat c m) run s) = true.
Proof.
  intros Hcd Hm Hal.
  assert (Hskip : forall j k rest, (0 < j)%nat ->
            runsBelow d limit k (repeat c j ++ rest) = runsBelow d limit 0 rest).
  { induction j as [|j IHj]; intros k rest Hj; [lia|].
    cbn [repeat app runsBelow].
    replace (c =? d)%N with false by (symmetry; now apply N.eqb_neq).
    destruct j as [|j]; [reflexivity|]. apply IHj. lia. }
  assert (Hflush : forall run k rest,
            runsBelow d limit k (repeat c run ++ rest) = true ->
            runsBelow d limit k (flushRun c atLeast (repeat c m) run ++ rest) = true).
  { intros run k rest H. unfold flushRun.
    destruct (atLeast <=? run)%nat eqn:E; [|exact H].
    apply Nat.leb_le in E.
    rewrite Hskip in H by lia. now rewrite Hskip by exact Hm. }
  induction s as [|x t IH]; intros run k H; cbn [collapseRuns].
  - rewrite <- (app_nil_r (flushRun _ _ _ _)). now apply Hflush.
  - destruct (x =? c)%N eqn:Ex.
    + apply N.eqb_eq in Ex. subst x. apply IH.
      replace (repeat c (S run) ++ t) with (repeat c run ++ c :: t); [exact H|].
      change (repeat c (S run)) with (c :: repeat c run).
      rewrite repeat_cons, <- app_assoc. reflexivity.
    + apply Hflush in H. revert H.
      generalize (flushRun c atLeast (repeat c m) run). intros f.
      revert k. induction f as [|y f IHf]; intros k H; cbn [app] in *.
      * cbn [runsBelow] in *. destruct (x =? d)%N.
        -- apply andb_true_iff in H as [H1 H2]. rewrite H1. cbn [andb].
           apply (IH 0%nat). exact H2.
        -- apply (IH 0%nat). exact H.
      * cbn [runsBelow] in *. destruct (y =? d)%N.
        -- apply andb_true_iff in H as [H1 H2]. rewrite H1. cbn [andb].
           now apply IHf.
        -- now apply IHf.
Qed.

(** After a pass the text holds neither two spaces in a row nor three line
    breaks in a row. *)
Theorem normalizeMarkdown_runs (text l1 l2 : jsstring) :
  normalizeMarkdown text <> l1 ++ [SP; SP] ++ l2 /\
  normalizeMarkdown text <> l1 ++ [LF; LF; LF] ++ l2.
Proof.
  destruct text as [|a t].
  - split; intros H; destruct l1; discriminate H.
  - cbn [normalizeMarkdown]. unfold squeezeSpaces, limitBreaks. split.
    + apply (runsBelow_no_factor SP 2); [lia|].
      apply (collapseRuns_runsBelow SP 2 1). lia.
    + apply (runsBelow_no_factor LF 3); [lia|].
      apply (collapseRuns_keeps_other_runs SP LF 2 1 3); try lia;
        [discriminate|].
      cbn [repeat app].
      apply (collapseRuns_runsBelow LF 3 2). lia.
Qed.

Lemma filter_repeat_out (f : N -> bool) (c : N) (n : nat) :
  f c = false -> filter f (repeat c n) = [].
Proof.
  intros Hc; induction n as [|n IH]; cbn; [reflexivity|]. now rewrite Hc.
Qed.

Lemma collapseRuns_ink (c : N) (atLeast m run : nat) (s : jsstring) :
  isInk c = false ->
  filter isInk (collapseRuns c atLeast (repeat c m) run s) = filter isInk s.
Proof.
  intros Hc.
  assert (Hflush : forall r, filter isInk (flushRun c atLeast (repeat c m) r) = []).
  { intros r. unfold flushRun.
    destruct (atLeast <=? r)%nat; now apply filter_repeat_out. }
  revert run; induction s as [|x t IH]; intros run; cbn [collapseRuns].
  - apply Hflush.
  - destruct (x =? c)%N eqn:Ex.
    + apply N.eqb_eq in Ex. subst x. cbn [filter]. rewrite Hc. apply IH.
    + rewrite filter_app, Hflush. cbn [app filter]. now rewrite IH.
Qed.

(** Induction that follows the scanner: it moves on by one unit or by the
    three units of a match. *)
Lemma joinSingleBreaks_ind (P : jsstring -> Prop) :
  P [] ->
  (forall a t, P t ->
     (forall nl b rest, t = nl :: b :: rest -> P rest) -> P (a :: t)) ->
  forall s, P s.
Proof.
  intros Hnil Hcons s.
  assert (H : forall n s, (List.length s <= n)%nat -> P s).
  { induction n as [|n IH]; intros [|a t] Hlen; cbn in Hlen;
      try exact Hnil; try lia.
    apply Hcons.
    - apply IH. lia.
    - intros nl b rest ->. apply IH. cbn in Hlen. lia. }
  apply (H (List.length s)). lia.
Qed.

Lemma joinSingleBreaks_ink (s : jsstring) :
  filter isInk (joinSingleBreaks s) = filter isInk s.
Proof.
  induction s as [|a t IHt IHrest] using joinSingleBreaks_ind; [reflexivity|].
  cbn [joinSingleBreaks].
  destruct t as [|nl [|b rest]]; try (cbn [filter]; now rewrite IHt).
  destruct (negb (a =? LF) && (nl =? LF) && negb (b =? LF))%N eqn:E.
  - apply andb_true_iff in E as [E1 E3]. apply andb_true_iff in E1 as [E1 E2].
    apply N.eqb_eq in E2. subst nl.
    cbn [filter]. rewrite (IHrest _ _ _ eq_refl). reflexivity.
  - cbn [filter]. now rewrite IHt.
Qed.

(** A pass only touches spaces and line breaks: the other code units of the
    text come out unchanged, all of them and in their order. *)
Theorem normalizeMarkdown_keeps_ink (text : jsstring) :
  filter isInk (normalizeMarkdown text) = filter isInk text.
Proof.
  destruct text as [|a t]; [reflexivity|].
  cbn [normalizeMarkdown]. unfold squeezeSpaces, limitBreaks.
  rewrite (collapseRuns_ink SP 2 1) by reflexivity.
  rewrite (collapseRuns_ink LF 3 2) by reflexivity.
  apply joinSingleBreaks_ink.
Qed.

Lemma joinSingleBreaks_length (s : jsstring) :
  List.length (joinSingleBreaks s) = List.length s.
Proof.
  induction s as [|a t IHt IHrest] using joinSingleBreaks_ind; [reflexivity|].
  cbn [joinSingleBreaks].
  destruct t as [|nl [|b rest]]; try (cbn [List.length]; now rewrite IHt).
  destruct (negb (a =? LF) && (nl =? LF) && negb (b =? LF))%N.
  - cbn [List.length]. now rewrite (IHrest _ _ _ eq_refl).
  - cbn [List.length]. now rewrite IHt.
Qed.

Lemma collapseRuns_length (c : N) (atLeast m run : nat) (s : jsstring) :
  (m <= atLeast)%nat ->
  (List.length (collapseRuns c atLeast (repeat c m) run s)
   <= run + List.length s)%nat.
Proof.
  intros Hm.
  assert (Hflush : forall r,
            (List.length (flushRun c atLeast (repeat c m) r) <= r)%nat).
  { intros r. unfold flushRun. destruct (atLeast <=? r)%nat eqn:E;
      rewrite repeat_length; [apply Nat.leb_le in E; lia | lia]. }
  revert run; induction s as [|x t IH]; intros run; cbn [collapseRuns].
  - specialize (Hflush run). cbn. lia.
  - destruct (x =? c)%N.
    + specialize (IH (S run)). cbn [List.length]. lia.
    + rewrite length_app. cbn [List.length].
      specialize (IH 0%nat). specialize (Hflush run). lia.
Qed.

(** A pass never makes the text longer. *)
Theorem normalizeMarkdown_length (text : jsstring) :
  (List.length (normalizeMarkdown text) <= List.length text)%nat.
Proof.
  destruct text as [|a t]; [cbn; lia|].
  cbn [normalizeMarkdown]. unfold squeezeSpaces, limitBreaks.
  pose proof (collapseRuns_length SP 2 1 0
                (collapseRuns LF 3 [LF; LF] 0 (joinSingleBreaks (a :: t)))) as H1.
  pose proof (collapseRuns_length LF 3 2 0 (joinSingleBreaks (a :: t))) as H2.
  rewrite joinSingleBreaks_length in H2.
  cbn [repeat] in *. lia.
Qed.

End MarkdownShape.

(** ** Assessments: history, latest result and trend *)

Section AssessmentFacts.

Import Js Assessments.

Lemma insertBy_perm {A : Type} (cmp : A -> A -> Z) (x : A) (l : list A) :
  Permutation (insertBy cmp x l) (x :: l).
Proof.
  induction l as [|y t IH]; cbn [insertBy]; [reflexivity|].
  destruct (cmp x y <=? 0)%Z; [reflexivity|].
  rewrite IH. apply perm_swap.
Qed.

Lemma sortBy_perm {A : Type} (cmp : A -> A -> Z) (l : list A) :
  Permutation (sortBy cmp l) l.
Proof.
  induction l as [|x t IH]; cbn [sortBy fold_right]; [reflexivity|].
  rewrite insertBy_perm. now constructor.
Qed.

Lemma insertBy_newestFirst_sorted (x : AssessmentResult) (l : list AssessmentResult) :
  StronglySorted notOlder l -> StronglySorted notOlder (insertBy newestFirst x l).
Proof.
  induction l as [|y t IH]; intros Hs; cbn [insertBy].
  - repeat constructor.
  - inversion Hs as [|? ? Hst Hall]; subst.
    unfold newestFirst at 1.
    destruct (Z.leb_spec (date y - date x) 0) as [Hle|Hgt].
    + constructor; [exact Hs|]. constructor; [unfold notOlder; lia|].
      eapply Forall_impl; [|exact Hall]. unfold notOlder. intros b Hb. lia.
    + constructor; [now apply IH|].
      eapply Permutation_Forall; [symmetry; apply insertBy_perm|].
      constructor; [unfold notOlder; lia | exact Hall].
Qed.

(** The history of a student for one type holds exactly the student's
    assessments of that type, each as often as in the array, newest first. *)
Theorem getHistory_sorted (assessments : list AssessmentResult)
        (sid : jsstring) (ty : AssessmentType) :
  Permutation (getHistory assessments sid ty)
              (filter (ofStudentAndType sid ty) assessments) /\
  StronglySorted notOlder (getHistory assessments sid ty) /\
  (forall a, In a (getHistory assessments sid ty) <->
             In a assessments /\ studentId a = sid /\ type a = ty).
Proof.
  unfold getHistory. split; [apply sortBy_perm|]. split.
  - induction (filter (ofStudentAndType sid ty) assessments) as [|x t IH];
      cbn [sortBy fold_right]; [constructor|].
    now apply insertBy_newestFirst_sorted.
  - intros a. split.
    + intros Hin. apply (Permutation_in _ (sortBy_perm _ _)) in Hin.
      apply filter_In in Hin as [Hin Hm]. split; [exact Hin|].
      unfold ofStudentAndType, jsstring_eqb in Hm.
      apply andb_true_iff in Hm as [H1 H2].
      destruct (list_eq_dec N.eq_dec (studentId a) sid); [|discriminate].
      split; [assumption|].
      destruct (type a), ty; try discriminate; reflexivity.
    + intros (Hin & Hs & Ht).
      apply (Permutation_in _ (Permutation_sym (sortBy_perm _ _))).
      apply filter_In. split; [exact Hin|].
      unfold ofStudentAndType, jsstring_eqb. rewrite Hs, Ht.
      destruct (list_eq_dec N.eq_dec sid sid); [|contradiction].
      destruct ty; reflexivity.
Qed.

Lemma sortBy_head (l : list AssessmentResult) :
  match sortBy newestFirst l with
  | [] => l = []
  | a :: _ =>
      exists l1 l2, l = l1 ++ a :: l2 /\
        (forall b, In b l1 -> (date b < date a)%Z) /\
        (forall b, In b l2 -> (date b <= date a)%Z)
  end.
Proof.
  induction l as [|x t IH]; cbn [sortBy fold_right]; [reflexivity|].
  fold (sortBy newestFirst t).
  destruct (sortBy newestFirst t) as [|y s'] eqn:Es; cbn [insertBy].
  - subst t. exists [], []. repeat split; intros b [].
  - destruct IH as (l1 & l2 & -> & H1 & H2).
    unfold newestFirst at 1.
    destruct (Z.leb_spec (date y - date x) 0) as [Hle|Hgt].
    + exists [], (l1 ++ y :: l2). split; [reflexivity|].
      split; [intros b []|].
      intros b Hb. apply in_app_or in Hb as [Hb|[<-|Hb]].
      * specialize (H1 b Hb). lia.
      * lia.
      * specialize (H2 b Hb). lia.
    + exists (x :: l1), l2. split; [reflexivity|]. split; [|exact H2].
      intros b [<-|Hb]; [lia | now apply H1].
Qed.

(** [getLatestAssessmentObj] answers null exactly when the student has no
    assessment of the type; otherwise it answers the most recent one, and of
    several with the same date the one that comes first in the array. *)
Theorem getLatestAssessmentObj_newest (assessments : list AssessmentResult)
        (sid : jsstring) (ty : AssessmentType) :
  match getLatestAssessmentObj assessments sid ty with
  | None => forall a, In a assessments -> ofStudentAndType sid ty a = false
  | Some a =>
      exists l1 l2,
        filter (ofStudentAndType sid ty) assessments = l1 ++ a :: l2 /\
        (forall b, In b l1 -> (date b < date a)%Z) /\
        (forall b, In b l2 -> (date b <= date a)%Z)
  end.
Proof.
  unfold getLatestAssessmentObj.
  pose proof (sortBy_head (filter (ofStudentAndType sid ty) assessments)) as H.
  destruct (sortBy newestFirst (filter (ofStudentAndType sid ty) assessments))
    as [|a rest]; [|exact H].
  intros a Hin.
  destruct (ofStudentAndType sid ty a) eqn:E; [|reflexivity].
  assert (Hf : In a (filter (ofStudentAndType sid ty) assessments))
    by (apply filter_In; now split).
  rewrite H in Hf. destruct Hf.
Qed.

(** No trend is shown exactly when the student has fewer than two assessments
    of the type, or the type is phonological awareness or memory. *)
Theorem calculateTrend_absent (assessments : list AssessmentResult)
        (sid : jsstring) (ty : AssessmentType) :
  calculateTrend assessments sid ty = None <->
  (List.length (filter (ofStudentAndType sid ty) assessments) < 2)%nat \/
  ty = PHONOLOGICAL \/ ty = MEMORY.
Proof.
  unfold calculateTrend.
  rewrite <- (Permutation_length
                (sortBy_perm newestFirst (filter (ofStudentAndType sid ty) assessments))).
  fold (getHistory assessments sid ty).
  destruct (getHistory assessments sid ty) as [|c [|p rest]]; cbn [List.length].
  - split; [left; lia | reflexivity].
  - split; [left; lia | reflexivity].
  - split.
    + intros H. right.
      destruct ty; cbv zeta in H;
        repeat match type of H with
               | context [if ?b then _ else _] => destruct b
               end; try discriminate H; auto.
    + intros [Hlt|[-> | ->]]; [lia | reflexivity | reflexivity].
Qed.

End AssessmentFacts.

(** ** Notes: what the form writes, the consolidated view reads back *)

Section NotesFacts.

Import Js JsNum Assessments Notes.

Lemma unitsOf_digits (u : Decimal.uint) :
  Forall (fun c => FileName.isDigit c = true) (unitsOf u).
Proof. induction u; cbn [unitsOf]; constructor; auto. Qed.

Lemma showNat_digits (n : nat) :
  Forall (fun c => FileName.isDigit c = true) (showNat n).
Proof. apply unitsOf_digits. Qed.

Lemma decValue_unitsOf (u : Decimal.uint) (acc : nat) :
  fold_left (fun a c => (a * 10 + (Z.of_N c - 48))%Z) (unitsOf u) (Z.of_nat acc)
  = Z.of_nat (Nat.of_uint_acc u acc).
Proof.
  revert acc; induction u; intros acc; cbn [unitsOf fold_left Nat.of_uint_acc];
    [reflexivity | rewrite <- IHu; f_equal; rewrite Nat.tail_mul_spec;
                   lia ..].
Qed.

Lemma decValue_showNat (n : nat) : decValue (showNat n) = Z.of_nat n.
Proof.
  unfold decValue, showNat.
  change 0%Z with (Z.of_nat 0). rewrite decValue_unitsOf.
  fold (Nat.of_uint (Nat.to_uint n)). now rewrite Unsigned.of_to.
Qed.

Lemma showNat_nonempty (n : nat) : showNat n <> [].
Proof.
  unfold showNat. intros H.
  destruct (Nat.to_uint n) eqn:E; try discriminate H.
  pose proof (Unsigned.of_to n) as Hn. rewrite E in Hn. cbn in Hn. subst n.
  discriminate E.
Qed.

Lemma showNat_inj (n m : nat) : showNat n = showNat m -> n = m.
Proof.
  intros H. apply (f_equal decValue) in H.
  rewrite !decValue_showNat in H. lia.
Qed.

Lemma digit_lacks (h : N) (ds : jsstring) :
  FileName.isDigit h = false ->
  Forall (fun c => FileName.isDigit c = true) ds ->
  Forall (fun c => c <> h) ds.
Proof.
  intros Hh Hds. eapply Forall_impl; [|exact Hds].
  intros c Hc ->. congruence.
Qed.

Lemma takeWhile_digits (ds rest : jsstring) :
  Forall (fun c => FileName.isDigit c = true) ds ->
  match rest with [] => True | x :: _ => FileName.isDigit x = false end ->
  takeWhile FileName.isDigit (ds ++ rest) = ds.
Proof.
  intros Hds Hrest. induction Hds as [|c ds Hc _ IH]; cbn [app takeWhile].
  - destruct rest as [|x rest]; [reflexivity|]. cbn [takeWhile]. now rewrite Hrest.
  - now rewrite Hc, IH.
Qed.

Lemma digit_not_space (c : N) :
  FileName.isDigit c = true -> isWhiteSpace c = false.
Proof.
  unfold FileName.isDigit, isWhiteSpace. rewrite andb_true_iff, !N.leb_le.
  intros [H1 H2].
  repeat match goal with
         | |- context [(?a <=? ?b)%N] =>
             destruct (N.leb_spec a b); try lia
         | |- context [(?a =? ?b)%N] =>
             destruct (N.eqb_spec a b); try lia
         end; reflexivity.
Qed.

(** [parseInt] of a run of digits is its decimal value. *)
Lemma parseIntString_digits (ds : jsstring) :
  ds <> [] -> Forall (fun c => FileName.isDigit c = true) ds ->
  parseIntString ds = Some (decValue ds).
Proof.
  intros Hne Hds. destruct ds as [|d ds]; [contradiction|].
  inversion Hds as [|? ? Hd Hrest]; subst.
  unfold parseIntString. cbn [dropWhile]. rewrite (digit_not_space d Hd).
  unfold splitSign.
  replace (d =? 45)%N with false
    by (symmetry; apply N.eqb_neq; intros ->; discriminate Hd).
  replace (d =? 43)%N with false
    by (symmetry; apply N.eqb_neq; intros ->; discriminate Hd).
  assert (Hhex : hexBody (d :: ds) = None).
  { destruct ds as [|x t]; [reflexivity|].
    inversion Hrest as [|? ? Hx _]; subst. cbn [hexBody].
    replace (x =? 120)%N with false
      by (symmetry; apply N.eqb_neq; intros ->; discriminate Hx).
    replace (x =? 88)%N with false
      by (symmetry; apply N.eqb_neq; intros ->; discriminate Hx).
    now rewrite andb_false_r. }
  rewrite Hhex.
  rewrite <- (app_nil_r (d :: ds)) at 1.
  rewrite takeWhile_digits by (auto; exact I).
  now rewrite Z.mul_1_l.
Qed.

Lemma parseIntString_showNat (n : nat) :
  parseIntString (showNat n) = Some (Z.of_nat n).
Proof.
  rewrite parseIntString_digits, decValue_showNat;
    auto using showNat_nonempty, showNat_digits.
Qed.

Lemma stripPrefix_app (p rest : jsstring) : stripPrefix p (p ++ rest) = Some rest.
Proof.
  induction p as [|a p IH]; cbn [app stripPrefix]; [now destruct rest|].
  now rewrite N.eqb_refl.
Qed.

(** The pattern matches where the literal stands, followed by one space and
    digits. *)
Lemma matchDigits_here (literal ds rest : jsstring) :
  ds <> [] -> Forall (fun c => FileName.isDigit c = true) ds ->
  match rest with [] => True | x :: _ => FileName.isDigit x = false end ->
  matchDigits literal (literal ++ 32%N :: ds ++ rest) = Some ds.
Proof.
  intros Hne Hds Hrest.
  assert (Hat : digitsAt literal (literal ++ 32%N :: ds ++ rest) = Some ds).
  { unfold digitsAt. rewrite stripPrefix_app. cbn [dropWhile].
    change (isWhiteSpace 32) with true. cbv iota.
    destruct ds as [|d ds]; [contradiction|].
    inversion Hds as [|? ? Hd Hr]; subst.
    cbn [app dropWhile]. rewrite (digit_not_space d Hd).
    change (d :: ds ++ rest) with ((d :: ds) ++ rest).
    now rewrite takeWhile_digits. }
  destruct (literal ++ 32%N :: ds ++ rest) eqn:E; cbn [matchDigits];
    now rewrite Hat.
Qed.

(** The search passes over units that are not the first unit of the
    literal. *)
Lemma matchDigits_skip (h : N) (literal' pre s : jsstring) :
  Forall (fun c => c <> h) pre ->
  matchDigits (h :: literal') (pre ++ s) = matchDigits (h :: literal') s.
Proof.
  induction 1 as [|x pre Hx _ IH]; [reflexivity|].
  cbn [app matchDigits]. unfold digitsAt at 1. cbn [stripPrefix].
  replace (h =? x)%N with false by (symmetry; apply N.eqb_neq; congruence).
  exact IH.
Qed.

Ltac compute_lits :=
  repeat match goal with
         | |- context [lit ?str] =>
             let v := eval vm_compute in (lit str) in change (lit str) with v
         end.

Lemma lacks_of_forallb (h : N) (l : jsstring) :
  forallb (fun c => negb (c =? h)%N) l = true -> Forall (fun c => c <> h) l.
Proof.
  rewrite forallb_forall. intros H. apply Forall_forall. intros c Hc ->.
  specialize (H h Hc). rewrite N.eqb_refl in H. discriminate H.
Qed.

Lemma splitFrom_skip (sep pre acc rest : jsstring) :
  splitFrom sep (List.length pre) acc (pre ++ rest) = splitFrom sep 0 acc rest.
Proof.
  induction pre as [|x pre IH]; [reflexivity|]. cbn [List.length app splitFrom].
  exact IH.
Qed.

Lemma splitFrom_piece (h : N) (sep' a acc rest : jsstring) :
  Forall (fun c => c <> h) a ->
  splitFrom (h :: sep') 0 acc (a ++ (h :: sep') ++ rest)
  = (acc ++ a) :: splitFrom (h :: sep') 0 [] rest.
Proof.
  intros Ha; revert acc; induction Ha as [|x a Hx _ IH]; intros acc.
  - cbn [app]. cbn [splitFrom].
    change (h :: sep' ++ rest) with ((h :: sep') ++ rest).
    rewrite stripPrefix_app, app_nil_r.
    cbn [List.length]. rewrite Nat.sub_1_r. cbn [Nat.pred].
    now rewrite splitFrom_skip.
  - cbn [app splitFrom stripPrefix].
    replace (h =? x)%N with false by (symmetry; apply N.eqb_neq; congruence).
    rewrite IH, <- app_assoc. reflexivity.
Qed.

Lemma splitFrom_last (h : N) (sep' a acc : jsstring) :
  Forall (fun c => c <> h) a ->
  splitFrom (h :: sep') 0 acc a = [acc ++ a].
Proof.
  intros Ha; revert acc; induction Ha as [|x a Hx _ IH]; intros acc.
  - now rewrite app_nil_r.
  - cbn [splitFrom stripPrefix].
    replace (h =? x)%N with false by (symmetry; apply N.eqb_neq; congruence).
    rewrite IH, <- app_assoc. reflexivity.
Qed.

(** Splitting what was joined gives the pieces back, when no piece holds the
    first unit of the separator. *)
Lemma split_join (h : N) (sep' : jsstring) (parts : list jsstring) :
  parts <> [] ->
  Forall (Forall (fun c => c <> h)) parts ->
  split (h :: sep') (join (h :: sep') parts) = parts.
Proof.
  intros Hne Hall. unfold split.
  induction Hall as [|p rest Hp Hrest IH]; [contradiction|].
  destruct rest as [|q rest].
  - cbn [join]. now rewrite splitFrom_last.
  - change (join (h :: sep') (p :: q :: rest))
      with (p ++ (h :: sep') ++ join (h :: sep') (q :: rest)).
    rewrite splitFrom_piece by exact Hp. cbn [app]. f_equal.
    apply IH. discriminate.
Qed.

Lemma labelAndValue_pair (l v : jsstring) :
  Forall (fun c => c <> 58%N) l -> Forall (fun c => c <> 58%N) v ->
  labelAndValue (l ++ lit ": " ++ v) = (l, Some v).
Proof.
  intros Hl Hv. unfold labelAndValue, split.
  change (lit ": ") with [58%N; 32%N].
  rewrite splitFrom_piece by exact Hl.
  rewrite splitFrom_last by exact Hv. reflexivity.
Qed.

(** Parts "label: value" joined by a separator are read back one by one. *)
Lemma parts_read_back (h : N) (sep' : jsstring) (lvs : list (jsstring * jsstring)) :
  lvs <> [] -> h <> 58%N -> h <> 32%N ->
  Forall (fun lv => Forall (fun c => c <> h) (fst lv) /\
                    Forall (fun c => c <> 58%N) (fst lv) /\
                    Forall (fun c => c <> h) (snd lv) /\
                    Forall (fun c => c <> 58%N) (snd lv)) lvs ->
  map labelAndValue
      (split (h :: sep')
             (join (h :: sep') (map (fun lv => fst lv ++ lit ": " ++ snd lv) lvs)))
  = map (fun lv => (fst lv, Some (snd lv))) lvs.
Proof.
  intros Hne H58 H32 Hall.
  rewrite split_join.
  - rewrite map_map. apply map_ext_in. intros lv Hin.
    rewrite Forall_forall in Hall. destruct (Hall lv Hin) as (_ & Hl & _ & Hv).
    now apply labelAndValue_pair.
  - destruct lvs; [contradiction | discriminate].
  - apply Forall_map. eapply Forall_impl; [|exact Hall].
    intros lv (H1 & _ & H3 & _). apply Forall_app. split; [exact H1|].
    apply Forall_app. split; [|exact H3].
    change (lit ": ") with [58%N; 32%N]. repeat constructor; congruence.
Qed.

Lemma present_some (s : jsstring) : s <> [] -> present (Some s) = Some s.
Proof. destruct s; [contradiction | reflexivity]. Qed.

Lemma showNat_lacks (h : N) (n : nat) :
  FileName.isDigit h = false -> Forall (fun c => c <> h) (showNat n).
Proof. intros Hh. apply digit_lacks; [exact Hh | apply showNat_digits]. Qed.

(** Mathematics: the radar of the consolidated view shows, for the notes the
    form wrote, the ten labels with the ten scores that were entered. *)
Theorem math_notes_read_back
        (sc : MathScores) (i sid : jsstring) (dt : Z) (ty : AssessmentType)
        (ph : option jsstring) (s ms : option Z) (img ai : option jsstring) :
  getMathRadarData
    (Some (mkAssessment i sid dt ty ph s ms (Some (mathNotes sc)) img ai))
  = map (fun lv => mkRadarPoint (fst lv) (Some (Z.of_nat (snd lv))) 10)
        (combine mathLabels (mathValues sc)).
Proof.
  unfold getMathRadarData. cbn [notes].
  set (lvs := map (fun lv => (fst lv, showNat (snd lv)))
                  (combine mathLabels (mathValues sc))).
  assert (Hnotes : mathNotes sc
                   = join (lit "; ") (map (fun lv => fst lv ++ lit ": " ++ snd lv) lvs)).
  { unfold mathNotes, lvs. now rewrite map_map. }
  assert (Hne : mathNotes sc <> []).
  { unfold mathNotes. cbn [combine mathLabels mathValues map join].
    compute_lits. discriminate. }
  rewrite present_some by exact Hne. rewrite Hnotes.
  rewrite (map_ext _ (fun part =>
                        (fun lv : jsstring * option jsstring =>
                           mkRadarPoint (fst lv) (parseInt (snd lv)) 10)
                          (labelAndValue part)))
    by (intros part; now destruct (labelAndValue part)).
  rewrite <- (map_map labelAndValue
                (fun lv : jsstring * option jsstring =>
                   mkRadarPoint (fst lv) (parseInt (snd lv)) 10)).
  - change (lit "; ") with (59%N :: [32%N]).
    rewrite parts_read_back.
    + unfold lvs. rewrite !map_map. apply map_ext. intros [l v]. cbn [fst snd].
      cbn [parseInt]. now rewrite parseIntString_showNat.
    + unfold lvs. cbn [combine mathLabels mathValues map]. discriminate.
    + discriminate.
    + discriminate.
    + unfold lvs. apply Forall_map. apply Forall_forall. intros [l v] Hin.
      cbn [fst snd]. apply in_combine_l in Hin.
      split; [|split; [|split]]; try (apply showNat_lacks; reflexivity);
        revert l Hin; apply Forall_forall;
        unfold mathLabels; cbn [map]; compute_lits;
        repeat (constructor; [apply lacks_of_forallb; reflexivity|]);
        constructor.
Qed.

Lemma jsstring_eqb_showNat (m n : nat) :
  m <> n -> jsstring_eqb (showNat m) (showNat n) = false.
Proof.
  intros Hne. unfold jsstring_eqb.
  destruct (list_eq_dec N.eq_dec (showNat m) (showNat n)) as [E|_]; [|reflexivity].
  apply showNat_inj in E. contradiction.
Qed.

(** A numeral is no property name of [Object.prototype]. *)
Lemma numeral_not_inherited (n : nat) :
  existsb (jsstring_eqb (showNat n)) objectPrototypeKeys = false.
Proof.
  pose proof (showNat_digits n) as Hd. pose proof (showNat_nonempty n) as Hne.
  destruct (showNat n) as [|d ds]; [contradiction|].
  inversion Hd as [|? ? Hdig _]; subst.
  assert (Hhead : forall c t, FileName.isDigit c = false ->
                              jsstring_eqb (d :: ds) (c :: t) = false).
  { intros c t Hc. unfold jsstring_eqb.
    destruct (list_eq_dec N.eq_dec (d :: ds) (c :: t)) as [E|_]; [|reflexivity].
    injection E as -> _. congruence. }
  unfold objectPrototypeKeys. cbn [map]. compute_lits. cbn [existsb].
  rewrite !Hhead by reflexivity. reflexivity.
Qed.

Lemma levelToLabel_showNat (n : nat) :
  getProperty levelToLabel (Some (showNat n)) = readBackLabel n.
Proof.
  destruct n as [|[|[|[|n]]]]; try (vm_compute; reflexivity).
  unfold getProperty, levelToLabel. cbn [find fst readBackLabel].
  change (lit "1") with (showNat 1).
  change (lit "2") with (showNat 2).
  change (lit "3") with (showNat 3).
  rewrite !jsstring_eqb_showNat by lia.
  now rewrite numeral_not_inherited.
Qed.

Lemma memoryNotes_parts (a v f : nat) :
  memoryNotes a v f
  = join (lit ", ")
         (map (fun lv => fst lv ++ lit ": " ++ snd lv)
              [(lit "Auditiva", showNat a); (lit "Visual", showNat v);
               (lit "Funcional", showNat f)]).
Proof.
  unfold memoryNotes. cbn [map join fst snd]. compute_lits.
  cbn [app]. rewrite <- ?app_assoc. cbn [app]. reflexivity.
Qed.

(** Memory: the three levels the form wrote are read back under their names,
    each with the label of its level (none for a level other than 1, 2, 3). *)
Theorem memory_notes_read_back
        (auditory visual functional : nat) (i sid : jsstring) (dt : Z)
        (ty : AssessmentType) (ph : option jsstring) (s ms : option Z)
        (img ai : option jsstring) :
  getMemoryData
    (Some (mkAssessment i sid dt ty ph s ms
             (Some (memoryNotes auditory visual functional)) img ai))
  = [mkMemoryPoint (lit "Auditiva") (Some (Z.of_nat auditory))
                   (readBackLabel auditory);
     mkMemoryPoint (lit "Visual") (Some (Z.of_nat visual))
                   (readBackLabel visual);
     mkMemoryPoint (lit "Funcional") (Some (Z.of_nat functional))
                   (readBackLabel functional)].
Proof.
  unfold getMemoryData. cbn [notes].
  assert (Hne : memoryNotes auditory visual functional <> []).
  { unfold memoryNotes. compute_lits. discriminate. }
  rewrite present_some by exact Hne. rewrite memoryNotes_parts.
  rewrite (map_ext _ (fun part =>
                        (fun lv : jsstring * option jsstring =>
                           mkMemoryPoint (fst lv) (parseInt (snd lv))
                                         (getProperty levelToLabel (snd lv)))
                          (labelAndValue part)))
    by (intros part; now destruct (labelAndValue part)).
  rewrite <- (map_map labelAndValue
                (fun lv : jsstring * option jsstring =>
                   mkMemoryPoint (fst lv) (parseInt (snd lv))
                                 (getProperty levelToLabel (snd lv)))).
  change (lit ", ") with (44%N :: [32%N]).
  rewrite parts_read_back; try discriminate.
  - cbn [map fst snd parseInt].
    now rewrite !parseIntString_showNat, !levelToLabel_showNat.
  - repeat (constructor;
            [cbn [fst snd]; compute_lits;
             repeat split;
             first [apply showNat_lacks; reflexivity
                   | apply lacks_of_forallb; reflexivity]|]).
    constructor.
Qed.

Lemma levelText_lacks (h : N) (r : nat) :
  h = 59%N \/ h = 58%N -> Forall (fun c => c <> h) (levelText r).
Proof.
  intros [-> | ->]; destruct r as [|[|[|[|r]]]]; cbn [levelText];
    apply lacks_of_forallb; reflexivity.
Qed.

Lemma levelToNum_levelText (r : nat) :
  match getProperty levelToNum (Some (levelText r)) with
  | Own z => LevelNumber z
  | Inherited => LevelInherited
  | Missing => LevelNumber 0
  end = LevelNumber (readBackLevel r).
Proof. destruct r as [|[|[|[|r]]]]; vm_compute; reflexivity. Qed.

Lemma phonoNotes_parts (r a sy p : nat) :
  phonoNotes r a sy p
  = join (lit "; ")
         (map (fun lv => fst lv ++ lit ": " ++ snd lv)
              [(lit "Rimas", levelText r); (lit "Aliterações", levelText a);
               (lit "Seg. Silábica", levelText sy);
               (lit "Seg. Fonêmica", levelText p)]).
Proof.
  unfold phonoNotes. cbn [map join fst snd]. compute_lits.
  cbn [app]. rewrite <- ?app_assoc. cbn [app]. reflexivity.
Qed.

(** Phonological awareness: the four skills are read back under their names
    with the level that was stored, a level other than 1, 2, 3 coming back
    as 0 with the text "undefined". *)
Theorem phono_notes_read_back
        (rhyme alliteration syllables phonemes : nat) (i sid : jsstring)
        (dt : Z) (ty : AssessmentType) (ph : option jsstring) (s ms : option Z)
        (img ai : option jsstring) :
  getPhonoData
    (Some (mkAssessment i sid dt ty ph s ms
             (Some (phonoNotes rhyme alliteration syllables phonemes)) img ai))
  = [mkPhonoPoint (lit "Rimas") (LevelNumber (readBackLevel rhyme))
                  (Some (levelText rhyme));
     mkPhonoPoint (lit "Aliterações") (LevelNumber (readBackLevel alliteration))
                  (Some (levelText alliteration));
     mkPhonoPoint (lit "Seg. Silábica") (LevelNumber (readBackLevel syllables))
                  (Some (levelText syllables));
     mkPhonoPoint (lit "Seg. Fonêmica") (LevelNumber (readBackLevel phonemes))
                  (Some (levelText phonemes))].
Proof.
  unfold getPhonoData. cbn [notes].
  assert (Hne : phonoNotes rhyme alliteration syllables phonemes <> []).
  { unfold phonoNotes. compute_lits. discriminate. }
  rewrite present_some by exact Hne. rewrite phonoNotes_parts.
  rewrite (map_ext _ (fun part =>
                        (fun lv : jsstring * option jsstring =>
                           mkPhonoPoint (fst lv)
                             (match getProperty levelToNum (snd lv) with
                              | Own z => LevelNumber z
                              | Inherited => LevelInherited
                              | Missing => LevelNumber 0
                              end)
                             (snd lv))
                          (labelAndValue part)))
    by (intros part; now destruct (labelAndValue part)).
  rewrite <- (map_map labelAndValue
                (fun lv : jsstring * option jsstring =>
                   mkPhonoPoint (fst lv)
                     (match getProperty levelToNum (snd lv) with
                      | Own z => LevelNumber z
                      | Inherited => LevelInherited
                      | Missing => LevelNumber 0
                      end)
                     (snd lv))).
  change (lit "; ") with (59%N :: [32%N]).
  rewrite parts_read_back; try discriminate.
  - cbn [map fst snd]. now rewrite !levelToNum_levelText.
  - repeat (constructor;
            [cbn [fst snd]; compute_lits;
             repeat split;
             first [apply levelText_lacks; auto
                   | apply lacks_of_forallb; reflexivity]|]).
    constructor.
Qed.

Lemma matchDigits_after (h : N) (literal' pre ds rest : jsstring) :
  Forall (fun c => c <> h) pre ->
  ds <> [] -> Forall (fun c => FileName.isDigit c = true) ds ->
  match rest with [] => True | x :: _ => FileName.isDigit x = false end ->
  matchDigits (h :: literal') (pre ++ ((h :: literal') ++ 32%N :: ds ++ rest))
  = Some ds.
Proof.
  intros Hpre Hne Hds Hrest.
  rewrite matchDigits_skip by exact Hpre. now apply matchDigits_here.
Qed.

Lemma regroup (l1 f sfx rest : jsstring) (x : N) :
  l1 ++ x :: f ++ (sfx ++ rest) = (l1 ++ x :: f ++ sfx) ++ rest.
Proof. rewrite <- app_assoc. cbn [app]. now rewrite <- app_assoc. Qed.

Lemma readingAnalysis_shape (f d c : nat) (reasoning : jsstring) :
  readingAnalysis f d c reasoning
  = lit "Fluência:" ++ 32%N :: showNat f ++
    (lit "/10. " ++
     (lit "Decodificação:" ++ 32%N :: showNat d ++
      (lit "/10. " ++
       (lit "Compreensão:" ++ 32%N :: showNat c ++
        (lit "/10. " ++ reasoning))))).
Proof.
  unfold readingAnalysis. compute_lits.
  cbn [app]. rewrite <- ?app_assoc. cbn [app]. reflexivity.
Qed.

Lemma scored_piece_lacks (h : N) (literal sfx : jsstring) (n : nat) :
  FileName.isDigit h = false -> h <> 32%N ->
  forallb (fun c => negb (c =? h)%N) literal = true ->
  forallb (fun c => negb (c =? h)%N) sfx = true ->
  Forall (fun c => c <> h) (literal ++ 32%N :: showNat n ++ sfx).
Proof.
  intros Hh H32 Hl Hs. apply Forall_app. split; [now apply lacks_of_forallb|].
  constructor; [congruence|]. apply Forall_app. split.
  - now apply showNat_lacks.
  - now apply lacks_of_forallb.
Qed.

(** Reading: the three scores the form wrote into the analysis text are the
    ones the consolidated view reads out of it, whatever the reasoning text
    that follows them says. *)
Theorem reading_analysis_read_back
        (fluency decoding comprehension : nat) (reasoning : jsstring)
        (i sid : jsstring) (dt : Z) (ty : AssessmentType)
        (ph : option jsstring) (s ms : option Z) (nt img : option jsstring) :
  getReadingData
    (Some (mkAssessment i sid dt ty ph s ms nt img
             (Some (readingAnalysis fluency decoding comprehension reasoning))))
  = Some [mkRadarPoint (lit "Fluência") (Some (Z.of_nat fluency)) 10;
          mkRadarPoint (lit "Decodif.") (Some (Z.of_nat decoding)) 10;
          mkRadarPoint (lit "Compreens.") (Some (Z.of_nat comprehension)) 10].
Proof.
  unfold getReadingData. cbn [aiAnalysis].
  assert (Hne : readingAnalysis fluency decoding comprehension reasoning <> []).
  { unfold readingAnalysis. compute_lits. discriminate. }
  rewrite present_some by exact Hne.
  assert (Hslash : forall rest : jsstring,
            match lit "/10. " ++ rest with
            | [] => True
            | x :: _ => FileName.isDigit x = false
            end) by (intros rest; reflexivity).
  assert (H1 : capturedInt (lit "Fluência:")
                 (readingAnalysis fluency decoding comprehension reasoning)
               = Some (Z.of_nat fluency)).
  { unfold capturedInt. rewrite readingAnalysis_shape.
    rewrite matchDigits_here;
      auto using showNat_nonempty, showNat_digits, parseIntString_showNat;
      try apply Hslash. }
  assert (H2 : capturedInt (lit "Decodificação:")
                 (readingAnalysis fluency decoding comprehension reasoning)
               = Some (Z.of_nat decoding)).
  { unfold capturedInt. rewrite readingAnalysis_shape, regroup.
    let v := eval vm_compute in (lit "Decodificação:") in
    change (lit "Decodificação:") with v.
    rewrite matchDigits_after;
      auto using showNat_nonempty, showNat_digits, parseIntString_showNat;
      try apply Hslash.
    apply scored_piece_lacks; try reflexivity. discriminate. }
  assert (H3 : capturedInt (lit "Compreensão:")
                 (readingAnalysis fluency decoding comprehension reasoning)
               = Some (Z.of_nat comprehension)).
  { unfold capturedInt. rewrite readingAnalysis_shape.
    rewrite (regroup (lit "Decodificação:")), regroup, app_assoc.
    let v := eval vm_compute in (lit "Compreensão:") in
    change (lit "Compreensão:") with v.
    rewrite matchDigits_after;
      auto using showNat_nonempty, showNat_digits, parseIntString_showNat;
      try apply Hslash.
    apply Forall_app. split;
      apply scored_piece_lacks; try reflexivity; discriminate. }
  now rewrite H1, H2, H3.
Qed.

End NotesFacts.

(** ** Resizing an uploaded image *)

Section ResizeFacts.

Import Resize.

(** The side that is scaled down: [small * (1024 / big)], both operations
    rounded, then cut to an integer. *)
Lemma scaled_side (fl : Q -> Q) (big small : Z) :
  RoundsLikeDouble fl ->
  (1024 < big < 4294967296)%Z -> (0 < small <= big)%Z ->
  (0 <= Qfloor (fl (inject_Z small * fl (1024 / inject_Z big))%Q) <= 1024)%Z /\
  (Qfloor (fl (inject_Z small * fl (1024 / inject_Z big))%Q) <= small)%Z /\
  1024 * inject_Z small / inject_Z big - 2
    < inject_Z (Qfloor (fl (inject_Z small * fl (1024 / inject_Z big)))) /\
  inject_Z (Qfloor (fl (inject_Z small * fl (1024 / inject_Z big))))
    < 1024 * inject_Z small / inject_Z big + 1.
Proof.
  intros Hfl [Hb1 Hb2] [Hs1 Hs2].
  assert (HB1 : 1024 < inject_Z big) by (unfold Qlt; cbn; lia).
  assert (HB2 : inject_Z big < 4294967296) by (unfold Qlt; cbn; lia).
  assert (HS1 : 1 <= inject_Z small) by (unfold Qle; cbn; lia).
  assert (HS2 : inject_Z small <= inject_Z big) by (unfold Qle; cbn; lia).
  set (B := inject_Z big) in *. set (S := inject_Z small) in *.
  assert (Ha : B * (1024 / B) == 1024) by (apply Qmult_div_r; lra).
  assert (Ha0 : 0 < 1024 / B) by (apply Qlt_shift_div_l; lra).
  assert (Ha1 : 1024 / B <= 1) by (apply Qle_shift_div_r; lra).
  assert (Ha2 : (1 # 4194304) < 1024 / B) by (apply Qlt_shift_div_l; lra).
  assert (HX : 1024 * S / B == S * (1024 / B)) by (field; lra).
  rewrite HX.
  set (a := 1024 / B) in *.
  assert (Hra : inRange a) by (unfold inRange; lra).
  assert (Hr1 : inRange 1) by (unfold inRange; lra).
  destruct (fl_error fl Hfl a Hra) as [Hq1 Hq2].
  assert (Hq3 : fl a <= 1).
  { pose proof (fl_monotone fl Hfl a 1 Hra Hr1 Ha1) as Hm.
    pose proof (fl_exact fl Hfl 1 ltac:(lia)) as He.
    change (inject_Z 1) with 1 in He. lra. }
  unfold eps in *.
  set (q := fl a) in *.
  assert (HXle : S * a <= B * a)
    by (apply Qmult_le_compat_r; lra).
  assert (Hp1 : S * (a * (1 - (1 # 9007199254740992))) <= S * q)
    by (rewrite !(Qmult_comm S); apply Qmult_le_compat_r; lra).
  assert (Hp2 : S * q <= S * (a * (1 + (1 # 9007199254740992))))
    by (rewrite !(Qmult_comm S); apply Qmult_le_compat_r; lra).
  assert (Hp3 : S * q <= S * 1)
    by (rewrite !(Qmult_comm S); apply Qmult_le_compat_r; lra).
  assert (Hp4 : 1 * q <= S * q)
    by (apply Qmult_le_compat_r; lra).
  assert (Hx1 : S * (a * (1 - (1 # 9007199254740992)))
                == S * a * (1 - (1 # 9007199254740992))) by ring.
  assert (Hx2 : S * (a * (1 + (1 # 9007199254740992)))
                == S * a * (1 + (1 # 9007199254740992))) by ring.
  set (X := S * a) in *. set (p := S * q) in *.
  assert (Hrp : inRange p) by (unfold inRange; lra).
  assert (HrS : inRange S) by (unfold inRange; lra).
  destruct (fl_error fl Hfl p Hrp) as [Hr1' Hr2'].
  assert (Hr3 : fl p <= S).
  { assert (HpS : p <= S) by lra.
    pose proof (fl_monotone fl Hfl p S Hrp HrS HpS) as Hm.
    pose proof (fl_exact fl Hfl small ltac:(lia)) as He.
    fold S in He. lra. }
  unfold eps in *.
  pose proof (Qfloor_le (fl p)) as Hf1.
  pose proof (Qlt_floor (fl p)) as Hf2.
  rewrite inject_Z_plus in Hf2. change (inject_Z 1) with 1 in Hf2.
  set (r := fl p) in *. set (k := Qfloor r) in *.
  assert (Hk0 : inject_Z (-1) < inject_Z k)
    by (change (inject_Z (-1)) with (-(1)); lra).
  assert (Hk1 : inject_Z k < inject_Z 1025)
    by (change (inject_Z 1025) with 1025; lra).
  assert (Hk2 : inject_Z k <= inject_Z small) by (fold S; lra).
  rewrite <- Zlt_Qlt in Hk0, Hk1. rewrite <- Zle_Qle in Hk2.
  repeat split; try lia; lra.
Qed.

(** For any rounding that behaves as the arithmetic on doubles does, an image
    of positive size (below 2^32 on each side) gets a canvas within 1024 by
    1024 and never larger than the image; an image already within the bounds
    keeps its size; otherwise the longer side becomes exactly 1024 and the
    other side is the proportional length cut to an integer, less than one
    above and less than two below the exact proportion (it can be 0). *)
Theorem resize_fits (fl : Q -> Q) (imgWidth imgHeight : Z) :
  RoundsLikeDouble fl ->
  (0 < imgWidth < 4294967296)%Z -> (0 < imgHeight < 4294967296)%Z ->
  (0 <= fst (canvasSize fl imgWidth imgHeight) <= 1024 /\
   fst (canvasSize fl imgWidth imgHeight) <= imgWidth)%Z /\
  (0 <= snd (canvasSize fl imgWidth imgHeight) <= 1024 /\
   snd (canvasSize fl imgWidth imgHeight) <= imgHeight)%Z /\
  ((imgWidth <= 1024)%Z -> (imgHeight <= 1024)%Z ->
   canvasSize fl imgWidth imgHeight = (imgWidth, imgHeight)) /\
  ((imgHeight < imgWidth)%Z -> (1024 < imgWidth)%Z ->
   fst (canvasSize fl imgWidth imgHeight) = 1024%Z /\
   1024 * inject_Z imgHeight / inject_Z imgWidth - 2
     < inject_Z (snd (canvasSize fl imgWidth imgHeight)) /\
   inject_Z (snd (canvasSize fl imgWidth imgHeight))
     < 1024 * inject_Z imgHeight / inject_Z imgWidth + 1) /\
  ((imgWidth <= imgHeight)%Z -> (1024 < imgHeight)%Z ->
   snd (canvasSize fl imgWidth imgHeight) = 1024%Z /\
   1024 * inject_Z imgWidth / inject_Z imgHeight - 2
     < inject_Z (fst (canvasSize fl imgWidth imgHeight)) /\
   inject_Z (fst (canvasSize fl imgWidth imgHeight))
     < 1024 * inject_Z imgWidth / inject_Z imgHeight + 1).
Proof.
  intros Hfl Hw Hh. unfold canvasSize, resize, MAX_WIDTH, MAX_HEIGHT.
  destruct (Qlt_le_dec (inject_Z imgHeight) (inject_Z imgWidth)) as [Hlt|Hle].
  - rewrite <- Zlt_Qlt in Hlt.
    destruct (Qlt_le_dec 1024 (inject_Z imgWidth)) as [Hbig|Hsmall];
      cbn [fst snd].
    + assert (Hbig' : (1024 < imgWidth)%Z)
        by (unfold Qlt in Hbig; cbn in Hbig; lia).
      destruct (scaled_side fl imgWidth imgHeight Hfl ltac:(lia) ltac:(lia))
        as (H1 & H2 & H3 & H4).
      change (Qfloor 1024) with 1024%Z.
      repeat split; try lia; try assumption.
    + assert (Hsmall' : (imgWidth <= 1024)%Z)
        by (unfold Qle in Hsmall; cbn in Hsmall; lia).
      rewrite !Qfloor_Z. repeat split; try lia.
  - rewrite <- Zle_Qle in Hle.
    destruct (Qlt_le_dec 1024 (inject_Z imgHeight)) as [Hbig|Hsmall];
      cbn [fst snd].
    + assert (Hbig' : (1024 < imgHeight)%Z)
        by (unfold Qlt in Hbig; cbn in Hbig; lia).
      destruct (scaled_side fl imgHeight imgWidth Hfl ltac:(lia) ltac:(lia))
        as (H1 & H2 & H3 & H4).
      change (Qfloor 1024) with 1024%Z.
      repeat split; try lia; try assumption.
    + assert (Hsmall' : (imgHeight <= 1024)%Z)
        by (unfold Qle in Hsmall; cbn in Hsmall; lia).
      rewrite !Qfloor_Z. repeat split; try lia.
Qed.

(** With exact arithmetic for the rounding, a photo of 3000 by 2000 gets a
    canvas of 1024 by 682. *)
Lemma resize_fits_witness :
  RoundsLikeDouble (fun x => x) /\
  canvasSize (fun x => x) 3000 2000 = (1024, 682)%Z /\
  (snd (canvasSize (fun x => x) 3000 2000) <= 1024)%Z.
Proof.
  assert (Hfl : RoundsLikeDouble (fun x => x)).
  { constructor.
    - intros x y H. exact H.
    - intros x y _ _ H. exact H.
    - intros z _. reflexivity.
    - intros x [H _]. unfold eps. split; lra. }
  split; [exact Hfl|]. split; [reflexivity|].
  apply (resize_fits (fun x => x) 3000 2000 Hfl); lia.
Defined.

End ResizeFacts.

(** ** Requesting a report *)

Section ReportRequestFacts.

Import Js Assessments ReportRequest.

(** A student without assessments gets the notice "É necessário realizar
    sondagens antes de gerar o relatório." and no request is sent; otherwise
    exactly one request is sent with the student's assessments and the
    loading flag is false afterwards whatever the service answers; a
    rejection leaves the report on screen as it was and shows the alert
    "Erro ao gerar relatório."; an answer puts its text on screen, and an
    answer without text or with an empty text puts "Erro ao gerar
    relatório." on screen as the report. *)
Theorem handleGenerateReport_outcomes
        (answer : ServiceAnswer) (assessments : list AssessmentResult)
        (student : Student) (st : AppState) :
  let mine := filter (fun a => jsstring_eqb (studentId a) (studentKey student))
                     assessments in
  let st' := handleGenerateReport answer assessments student st in
  match mine with
  | [] =>
      st' = mkAppState
              (reportLoading st) (reportData st)
              (alerts st ++
               [Notes.lit "É necessário realizar sondagens antes de gerar o relatório."])
              (requests st)
  | _ :: _ =>
      reportLoading st' = false /\
      requests st' = requests st ++ [(studentName student, mine)] /\
      match answer with
      | Rejects =>
          reportData st' = reportData st /\
          alerts st' = alerts st ++ [Notes.lit "Erro ao gerar relatório."]
      | Resolves text =>
          alerts st' = alerts st /\
          reportData st'
          = Some (match text with
                  | Some (c :: t) => c :: t
                  | _ => Notes.lit "Erro ao gerar relatório."
                  end, student)
      end
  end.
Proof.
  cbv zeta. unfold handleGenerateReport.
  assert (He : ERRO_RELATORIO = Notes.lit "Erro ao gerar relatório.")
    by reflexivity.
  assert (Hs : SEM_SONDAGENS
               = Notes.lit "É necessário realizar sondagens antes de gerar o relatório.")
    by reflexivity.
  destruct (filter _ assessments) as [|a mine].
  - unfold alert. now rewrite Hs.
  - destruct answer as [|[[|c t]|]];
      cbn [generateStudentReport setReportLoading setReportData alert
           reportLoading reportData alerts requests];
      rewrite <- ?He; repeat split.
Qed.

End ReportRequestFacts.

(** ** Bold spans *)

Section BoldFacts.

Import Js Bold.

Lemma closeBold_shape (rest content after : jsstring) :
  closeBold rest = Some (content, after) ->
  rest = content ++ STAR :: STAR :: after.
Proof.
  revert content; induction rest as [|x t IH]; intros content H;
    cbn [closeBold] in H; [discriminate|].
  destruct t as [|y t']; [discriminate|].
  destruct ((x =? STAR) && (y =? STAR))%N eqn:E.
  - injection H as <- <-. apply andb_true_iff in E as [Ex Ey].
    apply N.eqb_eq in Ex, Ey. now subst.
  - destruct (isLineTerminator x); [discriminate|].
    destruct (closeBold (y :: t')) as [[c a]|] eqn:Ec; [|discriminate].
    injection H as <- <-. cbn [app]. f_equal. now apply IH.
Qed.

Lemma boldAt_prefix (s m : jsstring) :
  boldAt s = Some m -> exists x m' rest, m = x :: m' /\ s = m ++ rest.
Proof.
  unfold boldAt. destruct s as [|a [|b rest]]; try discriminate.
  destruct ((a =? STAR) && (b =? STAR))%N eqn:E; [|discriminate].
  destruct (closeBold rest) as [[c after]|] eqn:Ec; [|discriminate].
  intros [= <-]. apply closeBold_shape in Ec. subst rest.
  apply andb_true_iff in E as [Ea Eb]. apply N.eqb_eq in Ea, Eb. subst a b.
  exists STAR, (STAR :: c ++ [STAR; STAR]), after. split; [reflexivity|].
  cbn [app]. rewrite <- app_assoc. reflexivity.
Qed.

Lemma splitBoldFrom_skip (pre acc rest : jsstring) :
  splitBoldFrom (List.length pre) acc (pre ++ rest) = splitBoldFrom 0 acc rest.
Proof.
  induction pre as [|x pre IH]; [reflexivity|].
  cbn [List.length app splitBoldFrom]. exact IH.
Qed.

Lemma splitBoldFrom_concat (n : nat) :
  forall s acc, (List.length s <= n)%nat ->
    concat (splitBoldFrom 0 acc s) = acc ++ s.
Proof.
  induction n as [|n IH]; intros [|x t] acc Hlen; cbn in Hlen; try lia;
    try (cbn; now rewrite !app_nil_r).
  cbn [splitBoldFrom].
  destruct (boldAt (x :: t)) as [m|] eqn:Em.
  - destruct (boldAt_prefix _ _ Em) as (x' & m' & rest & -> & Hs).
    cbn [app] in Hs. injection Hs as <- ->.
    cbn [List.length]. rewrite Nat.sub_1_r. cbn [Nat.pred].
    rewrite splitBoldFrom_skip. cbn [concat].
    rewrite IH by (rewrite length_app in Hlen; lia).
    cbn [app]. reflexivity.
  - rewrite IH by lia. now rewrite <- app_assoc.
Qed.

(** Nothing is lost when the text is cut into parts: the parts put together
    again are the text. *)
Theorem splitBold_lossless (str : jsstring) : concat (splitBold str) = str.
Proof.
  unfold splitBold. now rewrite (splitBoldFrom_concat (List.length str)).
Qed.

Lemma splitBoldFrom_plain (a acc rest : jsstring) :
  Forall (fun c => c <> STAR) a ->
  splitBoldFrom 0 acc (a ++ rest) = splitBoldFrom 0 (acc ++ a) rest.
Proof.
  intros Ha; revert acc; induction Ha as [|x a Hx _ IH]; intros acc.
  - now rewrite app_nil_r.
  - cbn [app splitBoldFrom].
    assert (Hb : boldAt (x :: a ++ rest) = None).
    { unfold boldAt. destruct (a ++ rest); [reflexivity|].
      replace (x =? STAR)%N with false by (symmetry; now apply N.eqb_neq).
      reflexivity. }
    rewrite Hb, IH, <- app_assoc. reflexivity.
Qed.

Lemma closeBold_plain (b after : jsstring) :
  Forall (fun c => c <> STAR) b ->
  Forall (fun c => isLineTerminator c = false) b ->
  closeBold (b ++ STAR :: STAR :: after) = Some (b, after).
Proof.
  intros Hb Hl; induction Hb as [|x b Hx _ IH]; cbn [app closeBold].
  - now rewrite N.eqb_refl.
  - inversion Hl as [|? ? Hlx Hlb]; subst.
    destruct (b ++ STAR :: STAR :: after) as [|y t'] eqn:E;
      [destruct b; discriminate E|].
    replace (x =? STAR)%N with false by (symmetry; now apply N.eqb_neq).
    cbn [andb]. rewrite Hlx. now rewrite IH.
Qed.

Lemma startsWithStars_plain (a : jsstring) :
  Forall (fun c => c <> STAR) a -> startsWithStars a = false.
Proof.
  intros Ha. destruct a as [|x [|y a]]; try reflexivity.
  inversion Ha as [|? ? Hx _]; subst. cbn [startsWithStars].
  replace (x =? STAR)%N with false by (symmetry; now apply N.eqb_neq).
  reflexivity.
Qed.

Lemma splitBoldFrom_match (x : N) (t acc m : jsstring) :
  boldAt (x :: t) = Some m ->
  splitBoldFrom 0 acc (x :: t)
  = acc :: m :: splitBoldFrom (List.length m - 1) [] t.
Proof. intros H. cbn [splitBoldFrom]. now rewrite H. Qed.

(** A text without stars is rendered as it is, in one piece. *)
Theorem parseBold_plain (str : jsstring) :
  Forall (fun c => c <> STAR) str -> parseBold str = [Text str].
Proof.
  intros H. unfold parseBold, splitBold.
  rewrite <- (app_nil_r str) at 1.
  rewrite splitBoldFrom_plain by exact H. cbn [app splitBoldFrom map].
  now rewrite startsWithStars_plain.
Qed.

Lemma parseBold_plain_witness :
  Forall (fun c => c <> STAR) (ofAscii "texto") /\
  parseBold (ofAscii "texto") = [Text (ofAscii "texto")].
Proof.
  assert (H : Forall (fun c => c <> STAR) (ofAscii "texto"))
    by (repeat constructor; discriminate).
  split; [exact H | exact (parseBold_plain _ H)].
Defined.

(** A span between two pairs of stars, on one line and without stars inside,
    is rendered in bold without its stars, between the text before it and
    the text after it. *)
Theorem parseBold_span (before inside after : jsstring) :
  Forall (fun c => c <> STAR) before ->
  Forall (fun c => c <> STAR) inside ->
  Forall (fun c => isLineTerminator c = false) inside ->
  Forall (fun c => c <> STAR) after ->
  parseBold (before ++ [STAR; STAR] ++ inside ++ [STAR; STAR] ++ after)
  = [Text before; Strong inside; Text after].
Proof.
  intros Hb Hi Hl Ha. unfold parseBold, splitBold.
  rewrite splitBoldFrom_plain by exact Hb. cbn [app].
  set (m := STAR :: STAR :: inside ++ [STAR; STAR]).
  assert (Hat : boldAt (STAR :: STAR :: inside ++ STAR :: STAR :: after) = Some m).
  { unfold boldAt. rewrite N.eqb_refl. cbn [andb].
    now rewrite closeBold_plain. }
  rewrite (splitBoldFrom_match _ _ _ _ Hat).
  replace (STAR :: inside ++ STAR :: STAR :: after)
    with ((STAR :: inside ++ [STAR; STAR]) ++ after)
    by (cbn [app]; now rewrite <- app_assoc).
  replace (List.length m - 1)%nat with (List.length (STAR :: inside ++ [STAR; STAR]))
    by (unfold m; cbn [List.length]; lia).
  rewrite splitBoldFrom_skip.
  rewrite <- (app_nil_r after) at 1.
  rewrite splitBoldFrom_plain by exact Ha. cbn [app splitBoldFrom map].
  rewrite (startsWithStars_plain before), (startsWithStars_plain after)
    by assumption.
  cbn [andb].
  assert (Hm : startsWithStars m && endsWithStars m = true).
  { unfold endsWithStars, m. cbn [startsWithStars rev].
    rewrite rev_app_distr. cbn [rev app startsWithStars].
    now rewrite N.eqb_refl. }
  rewrite Hm. unfold slice2, m. cbn [skipn List.length].
  rewrite length_app. cbn [List.length].
  replace (S (S (List.length inside + 2)) - 4)%nat with (List.length inside) by lia.
  rewrite firstn_app, firstn_all, Nat.sub_diag. cbn [firstn].
  now rewrite app_nil_r.
Qed.

(** "Fase **inicial** da escrita" *)
Lemma parseBold_span_witness :
  parseBold (ofAscii "Fase **inicial** da escrita")
  = [Text (ofAscii "Fase "); Strong (ofAscii "inicial");
     Text (ofAscii " da escrita")].
Proof.
  apply (parseBold_span (ofAscii "Fase ") (ofAscii "inicial")
                        (ofAscii " da escrita"));
    repeat constructor; discriminate.
Defined.

End BoldFacts.
